(** * mongo-firestore: a Firestore-like layer over a MongoDB driver

    Shallow embedding of [src/mongo.py] (the maintained module) and of the
    older top-level [mongo.py] (module [Legacy] below), with the properties
    of the expression compiler [parse], the change dispatcher
    [_thread_change], the query builder [MongoCollection] and the document
    reference [MongoReference]. *)

From stdpp Require Import base option list strings gmap.
From Stdlib Require Import ZArith String List Lia.
Import ListNotations.
Local Open Scope string_scope.
Local Open Scope list_scope.
Set Warnings "-register-all".

(** ** Python values *)

(** The fragment of Python data the module handles: scalars, the two
    sequence types a [match] sequence pattern accepts (list and tuple), and
    dicts.  A dict is an association list in insertion order; keys are
    Python values. *)
Inductive value : Type :=
  | VNone
  | VBool (b : bool)
  | VInt (z : Z)
  | VStr (s : string)
  | VList (items : list value)
  | VTuple (items : list value)
  | VDict (entries : list (value * value)).

Definition pydict : Type := list (value * value).

(** Exceptions the modelled code can raise. *)
Inductive exn : Type :=
  | TypeError (msg : string)
  | KeyError (key : string)
  | AttributeError (msg : string)
  | RecursionError
  | Exception (msg : string).

Inductive result (A : Type) : Type :=
  | Ok (a : A)
  | Raise (e : exn).
Arguments Ok {A} a.
Arguments Raise {A} e.

Definition bind {A B : Type} (c : result A) (k : A -> result B) : result B :=
  match c with
  | Ok a => k a
  | Raise e => Raise e
  end.

Declare Scope py_scope.
Delimit Scope py_scope with py.
Notation "x <- c ;; k" := (bind c (fun x => k))
  (at level 100, c at next level, right associativity) : py_scope.
Local Open Scope py_scope.

(** [hash(v)]: lists and dicts are unhashable, a tuple is hashable when all
    its items are. *)
Fixpoint hashable (v : value) : bool :=
  match v with
  | VList _ | VDict _ => false
  | VTuple items => forallb hashable items
  | _ => true
  end.

(** The dict display [{k: v}]: building the dict hashes the key. *)
Definition dict1 (k v : value) : result value :=
  if hashable k then Ok (VDict [(k, v)])
  else Raise (TypeError "unhashable type").

(** A literal pattern such as ["not"] matches a subject equal to that
    string. *)
Definition lit_eq (v : value) (s : string) : bool :=
  match v with
  | VStr s' => String.eqb s' s
  | _ => false
  end.

(** ** Utils: [parse] *)

(** The middle token of the eight three-element cases, in source order.
    [Some None] is the ["=="] case, which has no operator document. *)
Definition comparison (op : value) : option (option string) :=
  if lit_eq op "==" then Some None
  else if lit_eq op "!=" then Some (Some "$ne")
  else if lit_eq op "<" then Some (Some "$lt")
  else if lit_eq op ">" then Some (Some "$gt")
  else if lit_eq op "<=" then Some (Some "$lte")
  else if lit_eq op ">=" then Some (Some "$gte")
  else if lit_eq op "in" then Some (Some "$in")
  else if lit_eq op "not-in" then Some (Some "$nin")
  else None.

(** [parse(e2)] for ["=="], [{"$tag": parse(e2)}] for the other seven. *)
Definition op_document (tag : option string) (r : value) : value :=
  match tag with
  | None => r
  | Some t => VDict [(VStr t, r)]
  end.

(** The head token of the three star-pattern cases, in source order. *)
Definition combinator (t : value) : option string :=
  if lit_eq t "and" then Some "$and"
  else if lit_eq t "nor" then Some "$nor"
  else if lit_eq t "or" then Some "$or"
  else None.

(** [parse]: the [match args] statement.  Sequence patterns accept lists and
    tuples.  The cases are tried in source order: ["not"] on two items, the
    eight operator cases on three items, then the star patterns on any
    non-empty sequence ([nary]), then [case _]. *)
Fixpoint parse (args : value) : result value :=
  let parse_each :=
    fix parse_each (expr : list value) : result (list value) :=
      match expr with
      | [] => Ok []
      | e :: expr' =>
          r <- parse e ;; rs <- parse_each expr' ;; Ok (r :: rs)
      end in
  match args with
  | VList items | VTuple items =>
      let nary :=
        match items with
        | t :: expr =>
            match combinator t with
            | Some tag =>
                rs <- parse_each expr ;; Ok (VDict [(VStr tag, VList rs)])
            | None => Ok args
            end
        | [] => Ok args
        end in
      match items with
      | [t; e] =>
          if lit_eq t "not"
          then r <- parse e ;; Ok (VDict [(VStr "$not", r)])
          else nary
      | [e1; op; e2] =>
          match comparison op with
          | Some tag => r <- parse e2 ;; dict1 e1 (op_document tag r)
          | None => nary
          end
      | _ => nary
      end
  | _ => Ok args
  end.

(** The list comprehension [[parse(e) for e in expr]]. *)
Fixpoint parse_each (expr : list value) : result (list value) :=
  match expr with
  | [] => Ok []
  | e :: expr' => r <- parse e ;; rs <- parse_each expr' ;; Ok (r :: rs)
  end.

(** ** Dict operations used by the module (all with string-literal keys) *)

Fixpoint dict_lookup (d : pydict) (key : string) : option value :=
  match d with
  | [] => None
  | (k, v) :: d' => if lit_eq k key then Some v else dict_lookup d' key
  end.

(** [d.get(key, dflt)] *)
Definition dict_get (d : pydict) (key : string) (dflt : value) : value :=
  default dflt (dict_lookup d key).

(** [d[key]] *)
Definition dict_getitem (d : pydict) (key : string) : result value :=
  match dict_lookup d key with
  | Some v => Ok v
  | None => Raise (KeyError key)
  end.

(** The dict left by [d.pop(key, None)]. *)
Definition dict_pop (d : pydict) (key : string) : pydict :=
  List.filter (fun kv => negb (lit_eq (fst kv) key)) d.

Definition dict_keys (d : pydict) : list value := List.map fst d.

(** ** Utils: [_thread_change] *)

(** The user callback: [__code__.co_argcount] and what a call does (it
    returns, or raises). *)
Record callback : Type := {
  co_argcount : nat;
  call : list value -> option exn
}.

(** What the loop does, in order: events taken from the change stream and
    calls of the callback. *)
Inductive action : Type :=
  | Pull (change : pydict)
  | Call (args : list value).

Inductive outcome : Type :=
  | Returned
  | Raised (e : exn).

(** The body of [case 3] up to the call: the three arguments handed to a
    three-parameter callback. *)
Definition normalize (change : pydict) : result (value * value * value) :=
  let fullDocument := VList [dict_get change "fullDocument" (VDict [])] in
  documentKey <- dict_getitem change "documentKey" ;;
  operationType <- dict_getitem change "operationType" ;;
  ns <- dict_getitem change "ns" ;;
  let changes :=
    VDict [(VStr "documentKey", documentKey);
           (VStr "operationType", operationType);
           (VStr "ns", ns)] in
  let read_time := dict_get change "clusterTime" (VDict []) in
  Ok (fullDocument, changes, read_time).

Definition invalid_callback : exn :=
  Exception "callback function must have 1 or 3 parameters".

Definition then_ (done : list action) (k : list action * outcome)
  : list action * outcome :=
  (done ++ fst k, snd k).

(** [_thread_change]: [for change in change_stream], the stream being the
    events it yields before it ends. *)
Fixpoint _thread_change (change_stream : list pydict) (on_snapshot : callback)
  : list action * outcome :=
  match change_stream with
  | [] => ([], Returned)
  | change :: rest =>
      match co_argcount on_snapshot with
      | 1 =>
          match call on_snapshot [VDict change] with
          | None =>
              then_ [Pull change; Call [VDict change]]
                    (_thread_change rest on_snapshot)
          | Some e => ([Pull change; Call [VDict change]], Raised e)
          end
      | 3 =>
          match normalize change with
          | Ok (fullDocument, changes, read_time) =>
              let args := [fullDocument; changes; read_time] in
              match call on_snapshot args with
              | None =>
                  then_ [Pull change; Call args]
                        (_thread_change rest on_snapshot)
              | Some e => ([Pull change; Call args], Raised e)
              end
          | Raise e => ([Pull change], Raised e)
          end
      | _ => ([Pull change], Raised invalid_callback)
      end
  end.

Definition pulled (tr : list action) : list pydict :=
  omap (fun a => match a with Pull c => Some c | Call _ => None end) tr.

Definition calls (tr : list action) : list (list value) :=
  omap (fun a => match a with Call args => Some args | Pull _ => None end) tr.

(** ** Objects, the driver and the state the classes act on *)

Definition loc : Type := nat.

(** The fields of a [MongoCollection] object the methods use. *)
Record collection_obj : Type := {
  name : string;
  pipeline : list value
}.

(** Heap objects: a dict a caller passes in, or a collection handle. *)
Inductive obj : Type :=
  | ODict (d : pydict)
  | OCollection (c : collection_obj).

(** Calls made on the pymongo [Collection], with the arguments as the driver
    receives them. *)
Inductive driver_call : Type :=
  | aggregate_call (coll : string) (pipeline : list value)
  | replace_one_call (coll : string) (filter replacement : value) (upsert : bool)
  | update_one_call (coll : string) (filter update : value) (upsert : bool).

Record world : Type := {
  heap : gmap loc obj;
  driver_log : list driver_call
}.

(** What a method returns: [None], a handle (an object reference), or
    documents. *)
Inductive pyret : Type :=
  | RNone
  | RHandle (l : loc)
  | RDocs (docs : list value).

(** State and exceptions: a raise keeps the state reached so far. *)
Definition M (A : Type) : Type := world -> result A * world.

Definition ret {A : Type} (a : A) : M A := fun w => (Ok a, w).

Definition raise {A : Type} (e : exn) : M A := fun w => (Raise e, w).

Definition mbind {A B : Type} (c : M A) (k : A -> M B) : M B :=
  fun w =>
    match c w with
    | (Ok a, w') => k a w'
    | (Raise e, w') => (Raise e, w')
    end.

Notation "x <~ c ;; k" := (mbind c (fun x => k))
  (at level 100, c at next level, right associativity) : py_scope.

Definition lift {A : Type} (r : result A) : M A := fun w => (r, w).

Definition load_collection (self : loc) : M collection_obj :=
  fun w =>
    match heap w !! self with
    | Some (OCollection c) => (Ok c, w)
    | _ => (Raise (AttributeError "pipeline"), w)
    end.

Definition load_dict (data : loc) : M pydict :=
  fun w =>
    match heap w !! data with
    | Some (ODict d) => (Ok d, w)
    | _ => (Raise (AttributeError "pop"), w)
    end.

(** The state after an assignment to object [l], and after a driver call. *)
Definition with_object (w : world) (l : loc) (o : obj) : world :=
  {| heap := <[l := o]> (heap w); driver_log := driver_log w |}.

Definition with_call (w : world) (c : driver_call) : world :=
  {| heap := heap w; driver_log := driver_log w ++ [c] |}.

Definition store (l : loc) (o : obj) : M unit :=
  fun w => (Ok tt, with_object w l o).

(** The server behind the driver: the documents an aggregation yields, or
    the exception it raises, by collection and pipeline; and whether a write
    is accepted. *)
Record server : Type := {
  aggregate_reply : string -> list value -> result (list value);
  write_reply : driver_call -> option exn
}.

(** [collection.aggregate(pipeline)] *)
Definition driver_aggregate (db : server) (coll : string) (pipeline : list value)
  : M (list value) :=
  fun w => (aggregate_reply db coll pipeline, with_call w (aggregate_call coll pipeline)).

(** [collection.replace_one(...)] and [collection.update_one(...)] *)
Definition driver_write (db : server) (c : driver_call) : M unit :=
  fun w =>
    (match write_reply db c with None => Ok tt | Some e => Raise e end,
     with_call w c).

(** [self.pipeline.append(stage)]: the list held by the attribute grows in
    place. *)
Definition pipeline_append (self : loc) (stage : value) : M unit :=
  c <~ load_collection self ;;
  store self (OCollection {| name := name c; pipeline := pipeline c ++ [stage] |}).

(** [data.pop(key, None)] on the dict object [data] refers to. *)
Definition pop (data : loc) (key : string) : M value :=
  d <~ load_dict data ;;
  _ <~ store data (ODict (dict_pop d key)) ;;
  ret (dict_get d key VNone).

(** ** class MongoCollection ([src/mongo.py]) *)

Module MongoCollection.

Definition _reset (self : loc) : M unit :=
  c <~ load_collection self ;;
  store self (OCollection {| name := name c; pipeline := [] |}).

(** [result = self.collection.aggregate(self.pipeline)], [self._reset()],
    [return result]. *)
Definition aggregate (db : server) (self : loc) : M pyret :=
  c <~ load_collection self ;;
  result <~ driver_aggregate db (name c) (pipeline c) ;;
  _ <~ _reset self ;;
  ret (RDocs result).

(** [return list(self.aggregate())] *)
Definition get (db : server) (self : loc) : M pyret :=
  aggregate db self.

(** [args = args[0] if len(args) == 1 else args]: one positional argument
    is the expression, otherwise the tuple of arguments is. *)
Definition where_args (args : list value) : value :=
  match args with
  | [a] => a
  | _ => VTuple args
  end.

Definition where_ (self : loc) (args : list value) : M pyret :=
  let args := where_args args in
  _ <~ load_collection self ;;
  q <~ lift (parse args) ;;
  _ <~ pipeline_append self (VDict [(VStr "$match", q)]) ;;
  ret (RHandle self).

Definition order_by (self : loc) (name order : value) : M pyret :=
  _ <~ load_collection self ;;
  s <~ lift (dict1 name order) ;;
  _ <~ pipeline_append self (VDict [(VStr "$sort", s)]) ;;
  ret (RHandle self).

Definition limit (self : loc) (num : value) : M pyret :=
  _ <~ pipeline_append self (VDict [(VStr "$limit", num)]) ;;
  ret (RHandle self).

End MongoCollection.

(** ** class MongoReference ([src/mongo.py]) *)

Record reference : Type := {
  collection : string;
  docId : value
}.

Module MongoReference.

Definition _docId (self : reference) : value :=
  VDict [(VStr "_id", docId self)].

(** [data.pop("_id", None)], [return data]: the same object comes back. *)
Definition _clean (self : reference) (data : loc) : M loc :=
  _ <~ pop data "_id" ;;
  ret data.

Definition set (db : server) (self : reference) (data : loc) : M pyret :=
  data <~ _clean self data ;;
  d <~ load_dict data ;;
  _ <~ driver_write db (replace_one_call (collection self) (_docId self) (VDict d) true) ;;
  ret RNone.

Definition update (db : server) (self : reference) (data : loc) : M pyret :=
  data <~ _clean self data ;;
  d <~ load_dict data ;;
  _ <~ driver_write db (update_one_call (collection self) (_docId self)
                 (VDict [(VStr "$set", VDict d)]) true) ;;
  ret RNone.

Definition push (db : server) (self : reference) (data : loc) : M pyret :=
  data <~ _clean self data ;;
  d <~ load_dict data ;;
  _ <~ driver_write db (update_one_call (collection self) (_docId self)
                 (VDict [(VStr "$push", VDict d)]) true) ;;
  ret RNone.

End MongoReference.

(** ** The older top-level [mongo.py]

    [parse] and [_thread_change] are the same text as above.  The classes
    differ where shown: [get] inlines the aggregation, [order_by] and
    [limit] have no [return], and the write methods pop ["_id"] inline. *)

Module Legacy.

Module MongoCollection.

Definition _reset (self : loc) : M unit :=
  c <~ load_collection self ;;
  store self (OCollection {| name := name c; pipeline := [] |}).

Definition get (db : server) (self : loc) : M pyret :=
  c <~ load_collection self ;;
  result <~ driver_aggregate db (name c) (pipeline c) ;;
  _ <~ _reset self ;;
  ret (RDocs result).

Definition where_ (self : loc) (args : list value) : M pyret :=
  let args := MongoCollection.where_args args in
  _ <~ load_collection self ;;
  q <~ lift (parse args) ;;
  _ <~ pipeline_append self (VDict [(VStr "$match", q)]) ;;
  ret (RHandle self).

Definition order_by (self : loc) (name order : value) : M pyret :=
  _ <~ load_collection self ;;
  s <~ lift (dict1 name order) ;;
  _ <~ pipeline_append self (VDict [(VStr "$sort", s)]) ;;
  ret RNone.

Definition limit (self : loc) (num : value) : M pyret :=
  _ <~ pipeline_append self (VDict [(VStr "$limit", num)]) ;;
  ret RNone.

End MongoCollection.

Module MongoReference.

Definition _docId (self : reference) : value :=
  VDict [(VStr "_id", docId self)].

Definition set (db : server) (self : reference) (data : loc) : M pyret :=
  _ <~ pop data "_id" ;;
  d <~ load_dict data ;;
  _ <~ driver_write db (replace_one_call (collection self) (_docId self) (VDict d) true) ;;
  ret RNone.

Definition update (db : server) (self : reference) (data : loc) : M pyret :=
  _ <~ pop data "_id" ;;
  d <~ load_dict data ;;
  _ <~ driver_write db (update_one_call (collection self) (_docId self)
                 (VDict [(VStr "$set", VDict d)]) true) ;;
  ret RNone.

Definition push (db : server) (self : reference) (data : loc) : M pyret :=
  _ <~ pop data "_id" ;;
  d <~ load_dict data ;;
  _ <~ driver_write db (update_one_call (collection self) (_docId self)
                 (VDict [(VStr "$push", VDict d)]) true) ;;
  ret RNone.

End MongoReference.

End Legacy.

(** ** Vocabulary of the statements *)

(** One step of [parse] on a sequence, with the recursive calls named: the
    star-pattern cases, and the whole case list. *)
Definition nary (args : value) (items : list value) : result value :=
  match items with
  | t :: expr =>
      match combinator t with
      | Some tag => rs <- parse_each expr ;; Ok (VDict [(VStr tag, VList rs)])
      | None => Ok args
      end
  | [] => Ok args
  end.

Definition dispatch (args : value) (items : list value) : result value :=
  match items with
  | [t; e] =>
      if lit_eq t "not"
      then r <- parse e ;; Ok (VDict [(VStr "$not", r)])
      else nary args items
  | [e1; op; e2] =>
      match comparison op with
      | Some tag => r <- parse e2 ;; dict1 e1 (op_document tag r)
      | None => nary args items
      end
  | _ => nary args items
  end.

Definition items_of (x : value) : option (list value) :=
  match x with
  | VList items | VTuple items => Some items
  | _ => None
  end.

(** A 2-element not-list. *)
Definition is_not_node (x : value) : bool :=
  match items_of x with
  | Some [t; _] => lit_eq t "not"
  | _ => false
  end.

(** A 3-element list with a recognized operator in the middle. *)
Definition is_comparison_node (x : value) : bool :=
  match items_of x with
  | Some [_; op; _] => bool_decide (is_Some (comparison op))
  | _ => false
  end.

(** A list headed by and/or/nor. *)
Definition is_combinator_node (x : value) : bool :=
  match items_of x with
  | Some (t :: _) => bool_decide (is_Some (combinator t))
  | _ => false
  end.

Definition matches_rule (x : value) : bool :=
  is_not_node x || is_comparison_node x || is_combinator_node x.

(** The operands [E] of [[c, *E]] that the operator cases claim first: two
    items, the first an operator token. *)
Definition comparison_reading (E : list value) : bool :=
  match E with
  | [op; _] => bool_decide (is_Some (comparison op))
  | _ => false
  end.

(** [{cTag: [compile(e) for e in E]}] *)
Definition combinator_document (tag : string) (E : list value) : result value :=
  rs <- parse_each E ;; Ok (VDict [(VStr tag, VList rs)]).

(** The two subjects a sequence pattern matches: [where] hands [parse] a
    list (one argument) or a tuple (several). *)
Inductive seqkind : Type := AsList | AsTuple.

Definition sequence (k : seqkind) (items : list value) : value :=
  match k with
  | AsList => VList items
  | AsTuple => VTuple items
  end.

(** The combinator tokens and their query tags. *)
Definition combinators : list (string * string) :=
  [("and", "$and"); ("or", "$or"); ("nor", "$nor")].

(** The operator tokens and their query tags; ["=="] has none. *)
Definition operators : list (string * option string) :=
  [("==", None); ("!=", Some "$ne"); ("<", Some "$lt"); (">", Some "$gt");
   ("<=", Some "$lte"); (">=", Some "$gte"); ("in", Some "$in");
   ("not-in", Some "$nin")].

(** The filter document of [[f, op, v]] if [v] were left as a literal. *)
Definition literal_document (f : string) (tag : option string) (v : value)
  : result value :=
  Ok (VDict [(VStr f, op_document tag v)]).

Definition match_stage (q : value) : value := VDict [(VStr "$match", q)].

(** Successive [where] calls on one handle, one argument tuple per call. *)
Fixpoint wheres (self : loc) (calls : list (list value)) : M unit :=
  match calls with
  | [] => ret tt
  | args :: calls' =>
      _ <~ MongoCollection.where_ self args ;; wheres self calls'
  end.

(** A callback of [n] parameters that returns normally. *)
Definition callback_of (n : nat) : callback :=
  {| co_argcount := n; call := fun _ => None |}.

(** An update event without [fullDocument] and [clusterTime]. *)
Definition update_event : pydict :=
  [(VStr "operationType", VStr "update");
   (VStr "documentKey", VDict [(VStr "_id", VInt 7)]);
   (VStr "ns", VDict [(VStr "db", VStr "test"); (VStr "coll", VStr "users")]);
   (VStr "updateDescription", VDict [(VStr "removedFields", VList [])])].

(** A server with no documents that accepts every write, and one that
    rejects every aggregation and every write. *)
Definition empty_server : server :=
  {| aggregate_reply := fun _ _ => Ok []; write_reply := fun _ => None |}.

Definition failing_server : server :=
  {| aggregate_reply := fun _ _ => Raise (Exception "OperationFailure");
     write_reply := fun _ => Some (Exception "OperationFailure") |}.

(** A state with a fresh collection handle at 0 and a caller's dict at 1. *)
Definition sample_world : world :=
  {| heap :=
       <[0 := OCollection {| name := "users"; pipeline := [] |}]>
         (<[1 := ODict [(VStr "_id", VInt 9); (VStr "n", VInt 1)]]> ∅);
     driver_log := [] |}.

Definition sample_reference : reference :=
  {| collection := "users"; docId := VStr "alice" |}.

(** What a write method returns or raises, given the driver call it makes. *)
Definition write_outcome (db : server) (c : driver_call) : result pyret :=
  match write_reply db c with
  | None => Ok RNone
  | Some e => Raise e
  end.

Definition pipeline_of (w : world) (self : loc) : option (list value) :=
  match heap w !! self with
  | Some (OCollection c) => Some (pipeline c)
  | _ => None
  end.

Definition dict_at (w : world) (data : loc) : option pydict :=
  match heap w !! data with
  | Some (ODict d) => Some d
  | _ => None
  end.

(** Induction on values that reaches the items of lists and tuples. *)
Section value_induction.
Variable P : value -> Prop.
Hypothesis HNone : P VNone.
Hypothesis HBool : forall b, P (VBool b).
Hypothesis HInt : forall z, P (VInt z).
Hypothesis HStr : forall s, P (VStr s).
Hypothesis HList : forall items, Forall P items -> P (VList items).
Hypothesis HTuple : forall items, Forall P items -> P (VTuple items).
Hypothesis HDict : forall entries, P (VDict entries).

End value_induction.

(** The call returns a value (it does not raise). *)
Definition returns {A : Type} (c : result A) : Prop := exists a, c = Ok a.

(** ** [parse] under the interpreter's recursion limit *)

(** [[f(e) for e in expr]], for any [f]. *)
Fixpoint each (f : value -> result value) (expr : list value)
  : result (list value) :=
  match expr with
  | [] => Ok []
  | e :: expr' => r <- f e ;; rs <- each f expr' ;; Ok (r :: rs)
  end.

(** The case list of [parse], with the recursive call [rec] and the list
    comprehension [rec_each] left open. *)
Definition dispatch_with (rec : value -> result value)
    (rec_each : list value -> result (list value))
    (args : value) (items : list value) : result value :=
  let nary :=
    match items with
    | t :: expr =>
        match combinator t with
        | Some tag => rs <- rec_each expr ;; Ok (VDict [(VStr tag, VList rs)])
        | None => Ok args
        end
    | [] => Ok args
    end in
  match items with
  | [t; e] =>
      if lit_eq t "not"
      then r <- rec e ;; Ok (VDict [(VStr "$not", r)])
      else nary
  | [e1; op; e2] =>
      match comparison op with
      | Some tag => r <- rec e2 ;; dict1 e1 (op_document tag r)
      | None => nary
      end
  | _ => nary
  end.

(** [parse(args)] called when [frames] more stack frames fit under the
    recursion limit.  The call takes one frame, and fails with
    [RecursionError] when there is none; the body then runs with the
    frames left.  A list comprehension takes [comp] frames of its own: one
    before Python 3.12, none from 3.12 on. *)
Fixpoint parse_within (comp frames : nat) (args : value) : result value :=
  match frames with
  | 0 => Raise RecursionError
  | S rest =>
      match args with
      | VList items | VTuple items =>
          dispatch_with
            (parse_within comp rest)
            (fun expr =>
               if Nat.ltb rest comp then Raise RecursionError
               else each (parse_within comp (rest - comp)) expr)
            args items
      | _ => Ok args
      end
  end.


(** Every comparison that [parse] compiles on the way through [x] has a
    hashable first item: [x] itself if it is a comparison, and the same in
    the operand of a compiled [not], the value of a compiled comparison and
    the operands of a compiled and/or/nor.  Nothing is asked of parts that
    are passed through. *)
Fixpoint compiles (x : value) : bool :=
  match x with
  | VList items | VTuple items =>
      let nary :=
        match items with
        | t :: expr =>
            match combinator t with
            | Some _ => forallb compiles expr
            | None => true
            end
        | [] => true
        end in
      match items with
      | [t; e] => if lit_eq t "not" then compiles e else nary
      | [e1; op; e2] =>
          match comparison op with
          | Some _ => compiles e2 && hashable e1
          | None => nary
          end
      | _ => nary
      end
  | _ => true
  end.

(** A chain of [n] negations around [x]. *)
Fixpoint nots (n : nat) (x : value) : value :=
  match n with
  | 0 => x
  | S n' => VList [VStr "not"; nots n' x]
  end.

(** ** Further sample values and vocabulary *)

(** The event of a dropped collection: no [documentKey], no
    [fullDocument]. *)
Definition drop_event : pydict :=
  [(VStr "operationType", VStr "drop");
   (VStr "ns", VDict [(VStr "db", VStr "test"); (VStr "coll", VStr "users")]);
   (VStr "clusterTime", VInt 7)].

(** A state whose handle at 0 has one stage in its pipeline. *)
Definition filtered_world : world :=
  {| heap :=
       <[0 := OCollection {| name := "users";
                             pipeline := [match_stage (VStr "x")] |}]> ∅;
     driver_log := [] |}.

(** Successive [where] calls of the older [mongo.py] on one handle. *)
Fixpoint legacy_wheres (self : loc) (calls : list (list value)) : M unit :=
  match calls with
  | [] => ret tt
  | args :: calls' =>
      _ <~ Legacy.MongoCollection.where_ self args ;; legacy_wheres self calls'
  end.

(** What a callback of [on_snapshot]'s arity is called with for the event
    [change]: the raw event, or its normalized triple. *)
Definition delivered (on_snapshot : callback) (change : pydict)
    (args : list value) : Prop :=
  (co_argcount on_snapshot = 1 /\ args = [VDict change]) \/
  (co_argcount on_snapshot = 3 /\
   exists fullDocument changes read_time,
     normalize change = Ok (fullDocument, changes, read_time) /\
     args = [fullDocument; changes; read_time]).

(** ** Further definitions *)

(** A one-parameter callback that accepts the empty event and raises on
    any other. *)
Definition fussy_callback : callback :=
  {| co_argcount := 1;
     call := fun args =>
       match args with
       | [VDict []] => None
       | _ => Some (Exception "boom")
       end |}.

(** A method call on what the previous call returned: [None] and lists have
    no builder methods. *)
Definition on_handle (r : pyret) (method : loc -> M pyret) : M pyret :=
  match r with
  | RHandle l => method l
  | RNone => raise (AttributeError "NoneType")
  | RDocs _ => raise (AttributeError "list")
  end.

(** The chained query
    [c.where(e).order_by(field, order).limit(num).get()], with the
    methods of [src/mongo.py] and with those of the older [mongo.py]. *)
Definition query (db : server) (self : loc) (args : list value)
    (field order num : value) : M pyret :=
  r <~ MongoCollection.where_ self args ;;
  r <~ on_handle r (fun h => MongoCollection.order_by h field order) ;;
  r <~ on_handle r (fun h => MongoCollection.limit h num) ;;
  on_handle r (MongoCollection.get db).

Definition legacy_query (db : server) (self : loc) (args : list value)
    (field order num : value) : M pyret :=
  r <~ Legacy.MongoCollection.where_ self args ;;
  r <~ on_handle r (fun h => Legacy.MongoCollection.order_by h field order) ;;
  r <~ on_handle r (fun h => Legacy.MongoCollection.limit h num) ;;
  on_handle r (Legacy.MongoCollection.get db).

(** [MongoDatabase.collection(name)]: [MongoCollection.__init__] makes a new
    object whose pipeline is [[]]. *)
Definition database_collection (nm : string) : M pyret :=
  fun w =>
    let l := fresh (dom (heap w)) in
    (Ok (RHandle l), with_object w l (OCollection {| name := nm; pipeline := [] |})).

(** The set display [{a, b}]: building the set hashes each item in turn.
    (The items are kept as a list.) *)
Definition set_display (items : list value) : result (list value) :=
  if forallb hashable items then Ok items
  else Raise (TypeError "unhashable type").

(** [MongoCollection.to_dict], for any behaviour [dict_update] of
    [data.update(s)] on a set [s]. *)
Section to_dict.
Variable dict_update : pydict -> list value -> result pydict.

(** [for document in ...: data.update({document.pop("_id", None), document})].
    Only a dict takes [pop("_id", None)]: [list.pop] takes at most one
    argument, and the other types have no [pop]. *)
Fixpoint to_dict_loop (data : pydict) (docs : list value) : result pydict :=
  match docs with
  | [] => Ok data
  | document :: docs' =>
      match document with
      | VDict d =>
          s <- set_display [dict_get d "_id" VNone; VDict (dict_pop d "_id")] ;;
          data' <- dict_update data s ;;
          to_dict_loop data' docs'
      | VList _ => Raise (TypeError "pop expected at most 1 argument, got 2")
      | _ => Raise (AttributeError "pop")
      end
  end.

Definition to_dict (db : server) (self : loc) : M value :=
  r <~ MongoCollection.aggregate db self ;;
  match r with
  | RDocs docs => data <~ lift (to_dict_loop [] docs) ;; ret (VDict data)
  | _ => raise (TypeError "not iterable")
  end.
End to_dict.

(** The truth value of [v], as [not docId] tests it. *)
Definition truthy (v : value) : bool :=
  match v with
  | VNone => false
  | VBool b => b
  | VInt z => negb (Z.eqb z 0)
  | VStr s => negb (String.eqb s "")
  | VList items | VTuple items => negb (Nat.eqb (length items) 0)
  | VDict entries => negb (Nat.eqb (length entries) 0)
  end.

(** [MongoCollection._autoId] and [MongoCollection.document]: the reference
    made and the documents given to [insert_one] on the way, [new_id] being
    the [inserted_id] the driver reports. *)
Definition _autoId (new_id : value) : value * list value :=
  (new_id, [VDict []]).

Definition document (new_id : value) (self : collection_obj) (docId : value)
  : reference * list value :=
  let '(docId, inserted) :=
    if negb (truthy docId) then _autoId new_id else (docId, []) in
  ({| collection := name self; docId := docId |}, inserted).

(** * Properties *)

(** ** [parse] *)

Lemma parse_VList items : parse (VList items) = dispatch (VList items) items.
Proof. reflexivity. Qed.

Lemma parse_VTuple items : parse (VTuple items) = dispatch (VTuple items) items.
Proof. reflexivity. Qed.

Lemma parse_scalar x : items_of x = None -> parse x = Ok x.
Proof. destruct x; simpl; intros H; try discriminate; reflexivity. Qed.

Lemma parse_sequence k items :
  parse (sequence k items) = dispatch (sequence k items) items.
Proof. destruct k; reflexivity. Qed.


Lemma comparison_operators op tag :
  In (op, tag) operators -> comparison (VStr op) = Some tag.
Proof.
  unfold operators; simpl.
  intros H; repeat destruct H as [H | H]; try contradiction;
    injection H as <- <-; reflexivity.
Qed.

Lemma combinator_combinators c tag :
  In (c, tag) combinators ->
  combinator (VStr c) = Some tag /\ lit_eq (VStr c) "not" = false.
Proof.
  unfold combinators; simpl.
  intros H; repeat destruct H as [H | H]; try contradiction;
    injection H as <- <-; split; reflexivity.
Qed.

(** The comparison cases, for any operator the source tests for. *)
Lemma parse_comparison_case k (f : string) op tag v :
  comparison op = Some tag ->
  parse (sequence k [VStr f; op; v])
  = (r <- parse v ;; Ok (VDict [(VStr f, op_document tag r)])).
Proof.
  intros Hop. rewrite parse_sequence. unfold dispatch. rewrite Hop.
  destruct (parse v); reflexivity.
Qed.

Example parse_age_gte :
  parse (VList [VStr "age"; VStr ">="; VInt 18])
  = Ok (VDict [(VStr "age", VDict [(VStr "$gte", VInt 18)])]).
Proof. reflexivity. Qed.

Example parse_age_eq :
  parse (VList [VStr "age"; VStr "=="; VInt 18]) = Ok (VDict [(VStr "age", VInt 18)]).
Proof. reflexivity. Qed.

Example parse_and :
  parse (VList [VStr "and"; VList [VStr "age"; VStr ">"; VInt 18];
                VList [VStr "name"; VStr "=="; VStr "Bob"]])
  = Ok (VDict [(VStr "$and",
                VList [VDict [(VStr "age", VDict [(VStr "$gt", VInt 18)])];
                       VDict [(VStr "name", VStr "Bob")]])]).
Proof. reflexivity. Qed.

Example parse_not_not :
  parse (VList [VStr "not"; VList [VStr "not"; VInt 1]])
  = Ok (VDict [(VStr "$not", VDict [(VStr "$not", VInt 1)])]).
Proof. reflexivity. Qed.

(** The star-pattern cases apply whenever the two fixed-length cases above
    them do not. *)
Lemma nary_combinator args t expr tag :
  combinator t = Some tag -> nary args (t :: expr) = combinator_document tag expr.
Proof. intros Hc. unfold nary. rewrite Hc. reflexivity. Qed.

Lemma dispatch_nary args t expr tag :
  combinator t = Some tag ->
  lit_eq t "not" = false ->
  comparison_reading expr = false ->
  dispatch args (t :: expr) = combinator_document tag expr.
Proof.
  intros Hc Hnot Hcmp. unfold dispatch.
  destruct expr as [|a [|b [|c expr]]]; cbv beta iota;
    rewrite ?Hnot; try (by apply nary_combinator).
  unfold comparison_reading in Hcmp.
  destruct (comparison a) as [tg|] eqn:Ha; [|by apply nary_combinator].
  apply bool_decide_eq_false in Hcmp. exfalso. apply Hcmp. by eexists.
Qed.

(** C2, as stated, fails: with [E = ["==", 5]] the list [["and", "==", 5]]
    is read as the comparison of field ["and"], not as [{"$and": ["==", 5]}]. *)
Lemma parse_combinator_comparison_reading :
  parse (VList [VStr "and"; VStr "=="; VInt 5]) = Ok (VDict [(VStr "and", VInt 5)]) /\
  combinator_document "$and" [VStr "=="; VInt 5]
    = Ok (VDict [(VStr "$and", VList [VStr "=="; VInt 5])]) /\
  parse (VList [VStr "and"; VStr "=="; VInt 5])
    <> combinator_document "$and" [VStr "=="; VInt 5].
Proof. repeat split; try reflexivity. discriminate. Qed.

(** C2, amended. For a combinator token [c] and operands [E], of any length,
    [[c, *E]] compiles to [{cTag: [parse(e) for e in E]}] unless [E] is two
    items whose first is an operator token (the operator cases come first in
    the source). *)
Theorem parse_combinator (k : seqkind) (c tag : string) (E : list value) :
  In (c, tag) combinators ->
  comparison_reading E = false ->
  parse (sequence k (VStr c :: E)) = combinator_document tag E.
Proof.
  intros Hin Hcmp. apply combinator_combinators in Hin as [Hc Hnot].
  rewrite parse_sequence. by apply dispatch_nary.
Qed.

Lemma parse_combinator_witness :
  parse (VList [VStr "or"; VList [VStr "a"; VStr "<"; VInt 1]; VStr "x"])
  = Ok (VDict [(VStr "$or",
                VList [VDict [(VStr "a", VDict [(VStr "$lt", VInt 1)])]; VStr "x"])]).
Proof.
  apply (parse_combinator AsList "or" "$or"
           [VList [VStr "a"; VStr "<"; VInt 1]; VStr "x"]).
  - simpl. right. left. reflexivity.
  - reflexivity.
Defined.

(** An input no case but the last matches comes back as it is. *)
Lemma dispatch_unmatched x items :
  items_of x = Some items -> matches_rule x = false -> dispatch x items = Ok x.
Proof.
  unfold matches_rule, is_not_node, is_comparison_node, is_combinator_node.
  intros -> H.
  apply orb_false_iff in H as [H Hcomb]. apply orb_false_iff in H as [Hnot Hcmp].
  assert (Hnary : nary x items = Ok x).
  { unfold nary. destruct items as [|t expr]; [reflexivity|].
    destruct (combinator t) eqn:Ht; [|reflexivity].
    apply bool_decide_eq_false in Hcomb. exfalso. apply Hcomb. by eexists. }
  unfold dispatch.
  destruct items as [|a [|b [|c [|d items]]]]; try exact Hnary.
  - rewrite Hnot. exact Hnary.
  - destruct (comparison b) eqn:Hb; [|exact Hnary].
    apply bool_decide_eq_false in Hcmp. exfalso. apply Hcmp. by eexists.
Qed.

Lemma parse_unmatched x : matches_rule x = false -> parse x = Ok x.
Proof.
  intros H. destruct (items_of x) as [items|] eqn:Hx.
  - destruct x; try discriminate; injection Hx as ->;
      [rewrite parse_VList | rewrite parse_VTuple];
      by apply dispatch_unmatched.
  - by apply parse_scalar.
Qed.


(** C8, as stated, fails: the value of a comparison is compiled, so a
    comparison-shaped value comes out as a filter document. *)
Lemma parse_compiles_comparison_value :
  parse (VList [VStr "a"; VStr "=="; VList [VStr "b"; VStr "=="; VInt 1]])
    = Ok (VDict [(VStr "a", VDict [(VStr "b", VInt 1)])]) /\
  parse (VList [VStr "a"; VStr "=="; VList [VStr "b"; VStr "=="; VInt 1]])
    <> literal_document "a" None (VList [VStr "b"; VStr "=="; VInt 1]).
Proof. split; [reflexivity | discriminate]. Qed.

(** C8, amended. The value [v] of a comparison [[f, op, v]] is compiled by
    [parse] like the operand of [not]; it appears in the filter document
    unchanged exactly when [parse] leaves it unchanged, which is so for
    every [v] that matches no case. *)
Theorem parse_comparison_value (k : seqkind) (f op : string) (tag : option string)
    (v : value) :
  In (op, tag) operators ->
  (parse (sequence k [VStr "not"; v])
     = (r <- parse v ;; Ok (VDict [(VStr "$not", r)]))) /\
  (parse (sequence k [VStr f; VStr op; v])
     = (r <- parse v ;; Ok (VDict [(VStr f, op_document tag r)]))) /\
  (matches_rule v = false ->
   parse (sequence k [VStr f; VStr op; v]) = literal_document f tag v).
Proof.
  intros Hin%comparison_operators. split; [|split].
  - rewrite parse_sequence. reflexivity.
  - by apply parse_comparison_case.
  - intros Hv. rewrite (parse_comparison_case k f _ tag v Hin).
    rewrite (parse_unmatched v Hv). reflexivity.
Qed.

Lemma parse_comparison_value_witness :
  parse (VTuple [VStr "tags"; VStr "in"; VList [VStr "x"; VStr "y"]])
  = Ok (VDict [(VStr "tags", VDict [(VStr "$in", VList [VStr "x"; VStr "y"])])]).
Proof.
  refine (proj2 (proj2 (parse_comparison_value AsTuple "tags" "in" (Some "$in")
                          (VList [VStr "x"; VStr "y"]) _)) _).
  - simpl. do 6 right. left. reflexivity.
  - reflexivity.
Defined.

(** ** [_thread_change] *)

(** C4, as stated, fails: on a stream that ends without an event nothing
    is raised, and on a stream with an event the error comes after that
    event has been taken. *)
Lemma thread_change_checks_after_pull :
  _thread_change [] (callback_of 2) = ([], Returned) /\
  _thread_change [update_event] (callback_of 0)
    = ([Pull update_event], Raised invalid_callback) /\
  pulled (fst (_thread_change [update_event] (callback_of 0))) = [update_event].
Proof. repeat split. Qed.

(** C4, amended. With a callback of neither 1 nor 3 parameters the
    invalid-callback error is raised on the first event: that event has been
    taken from the stream, no later one is, and the callback is never
    called.  On a stream that ends without an event the function returns
    and raises nothing. *)
Theorem thread_change_invalid_callback (on_snapshot : callback)
    (change : pydict) (rest : list pydict) :
  co_argcount on_snapshot <> 1 ->
  co_argcount on_snapshot <> 3 ->
  _thread_change [] on_snapshot = ([], Returned) /\
  _thread_change (change :: rest) on_snapshot
    = ([Pull change], Raised invalid_callback) /\
  calls (fst (_thread_change (change :: rest) on_snapshot)) = [].
Proof.
  intros H1 H3. split; [reflexivity|].
  assert (E : _thread_change (change :: rest) on_snapshot
              = ([Pull change], Raised invalid_callback)).
  { simpl. destruct (co_argcount on_snapshot) as [|[|[|[|n]]]];
      try reflexivity; contradiction. }
  rewrite E. split; reflexivity.
Qed.

Lemma thread_change_invalid_callback_witness :
  _thread_change [] (callback_of 2) = ([], Returned) /\
  _thread_change [update_event; []] (callback_of 2)
    = ([Pull update_event], Raised invalid_callback) /\
  calls (fst (_thread_change [update_event; []] (callback_of 2))) = [].
Proof.
  apply (thread_change_invalid_callback (callback_of 2) update_event [[]]);
    simpl; lia.
Defined.

Lemma normalize_present change documentKey operationType ns :
  dict_lookup change "documentKey" = Some documentKey ->
  dict_lookup change "operationType" = Some operationType ->
  dict_lookup change "ns" = Some ns ->
  normalize change
  = Ok (VList [dict_get change "fullDocument" (VDict [])],
        VDict [(VStr "documentKey", documentKey);
               (VStr "operationType", operationType);
               (VStr "ns", ns)],
        dict_get change "clusterTime" (VDict [])).
Proof.
  intros Hk Ho Hn. unfold normalize, dict_getitem. rewrite Hk, Ho, Hn. reflexivity.
Qed.

(** C5, as stated, fails: the event of a dropped collection has no
    [documentKey]; the three-parameter branch raises [KeyError] on it and
    the callback is not called. *)
Lemma thread_change_drop_event_raises :
  normalize drop_event = Raise (KeyError "documentKey") /\
  _thread_change [drop_event] (callback_of 3)
    = ([Pull drop_event], Raised (KeyError "documentKey")) /\
  calls (fst (_thread_change [drop_event] (callback_of 3))) = [].
Proof. repeat split. Qed.

(** C5, amended. For a change event that has [documentKey], [operationType]
    and [ns], a three-parameter callback is called with: a one-item list
    holding the event's [fullDocument], or [{}] when the event has none; a
    dict with exactly the keys [documentKey], [operationType], [ns] and the
    event's values for them; and the event's [clusterTime], or [{}] when
    the event has none. *)
Theorem thread_change_normalizes (on_snapshot : callback) (change : pydict)
    (documentKey operationType ns : value) :
  co_argcount on_snapshot = 3 ->
  dict_lookup change "documentKey" = Some documentKey ->
  dict_lookup change "operationType" = Some operationType ->
  dict_lookup change "ns" = Some ns ->
  exists fullDocument changes read_time,
    normalize change = Ok (fullDocument, changes, read_time) /\
    calls (fst (_thread_change [change] on_snapshot))
      = [[fullDocument; changes; read_time]] /\
    fullDocument
      = VList [default (VDict []) (dict_lookup change "fullDocument")] /\
    (exists doc, fullDocument = VList [doc]) /\
    changes = VDict [(VStr "documentKey", documentKey);
                     (VStr "operationType", operationType);
                     (VStr "ns", ns)] /\
    read_time = default (VDict []) (dict_lookup change "clusterTime").
Proof.
  intros Hargs Hk Ho Hn. do 3 eexists.
  split; [by apply normalize_present|].
  split; [|repeat split; by eexists].
  simpl. rewrite Hargs, (normalize_present _ _ _ _ Hk Ho Hn).
  destruct (call on_snapshot _); reflexivity.
Qed.

Lemma thread_change_normalizes_witness :
  exists fullDocument changes read_time,
    normalize update_event = Ok (fullDocument, changes, read_time) /\
    calls (fst (_thread_change [update_event] (callback_of 3)))
      = [[fullDocument; changes; read_time]] /\
    fullDocument
      = VList [default (VDict []) (dict_lookup update_event "fullDocument")] /\
    (exists doc, fullDocument = VList [doc]) /\
    changes = VDict [(VStr "documentKey", VDict [(VStr "_id", VInt 7)]);
                     (VStr "operationType", VStr "update");
                     (VStr "ns", VDict [(VStr "db", VStr "test");
                                        (VStr "coll", VStr "users")])] /\
    read_time = default (VDict []) (dict_lookup update_event "clusterTime").
Proof.
  apply (thread_change_normalizes (callback_of 3) update_event); reflexivity.
Defined.

Example normalize_update_event :
  normalize update_event
  = Ok (VList [VDict []],
        VDict [(VStr "documentKey", VDict [(VStr "_id", VInt 7)]);
               (VStr "operationType", VStr "update");
               (VStr "ns", VDict [(VStr "db", VStr "test");
                                  (VStr "coll", VStr "users")])],
        VDict []).
Proof. reflexivity. Qed.

(** X9. A one-parameter callback that returns is called with each raw
    event, once, in stream order, whatever the events hold, and the function
    returns when the stream ends. *)
Lemma thread_change_raw on_snapshot change_stream :
  co_argcount on_snapshot = 1 ->
  (forall args, call on_snapshot args = None) ->
  snd (_thread_change change_stream on_snapshot) = Returned /\
  pulled (fst (_thread_change change_stream on_snapshot)) = change_stream /\
  calls (fst (_thread_change change_stream on_snapshot))
    = List.map (fun change => [VDict change]) change_stream.
Proof.
  intros Hargs Hcall. induction change_stream as [|change rest (IH1 & IH2 & IH3)].
  - repeat split.
  - simpl. rewrite Hargs, Hcall. unfold then_. simpl.
    rewrite IH1, IH2, IH3. repeat split.
Qed.

(** ** The state *)

Lemma load_collection_eq self c w :
  heap w !! self = Some (OCollection c) -> load_collection self w = (Ok c, w).
Proof. intros H. unfold load_collection. by rewrite H. Qed.

Lemma load_dict_eq data d w :
  heap w !! data = Some (ODict d) -> load_dict data w = (Ok d, w).
Proof. intros H. unfold load_dict. by rewrite H. Qed.

Lemma pipeline_of_with_object w self c :
  pipeline_of (with_object w self (OCollection c)) self = Some (pipeline c).
Proof. unfold pipeline_of, with_object. simpl. by rewrite lookup_insert_eq. Qed.

Lemma dict_at_with_object w data d :
  dict_at (with_object w data (ODict d)) data = Some d.
Proof. unfold dict_at, with_object. simpl. by rewrite lookup_insert_eq. Qed.

Lemma pipeline_append_eq self c stage w :
  heap w !! self = Some (OCollection c) ->
  pipeline_append self stage w
  = (Ok tt, with_object w self
              (OCollection {| name := name c; pipeline := pipeline c ++ [stage] |})).
Proof.
  intros H. unfold pipeline_append, mbind. by rewrite (load_collection_eq _ _ _ H).
Qed.

Lemma pop_eq data d key w :
  heap w !! data = Some (ODict d) ->
  pop data key w
  = (Ok (dict_get d key VNone), with_object w data (ODict (dict_pop d key))).
Proof.
  intros H. unfold pop, mbind. by rewrite (load_dict_eq _ _ _ H).
Qed.

(** ** [MongoCollection] *)

Lemma aggregate_eq db self c w :
  heap w !! self = Some (OCollection c) ->
  MongoCollection.aggregate db self w
  = match aggregate_reply db (name c) (pipeline c) with
    | Ok docs =>
        (Ok (RDocs docs),
         with_object (with_call w (aggregate_call (name c) (pipeline c))) self
           (OCollection {| name := name c; pipeline := [] |}))
    | Raise e => (Raise e, with_call w (aggregate_call (name c) (pipeline c)))
    end.
Proof.
  intros H. unfold MongoCollection.aggregate, MongoCollection._reset, mbind.
  rewrite (load_collection_eq _ _ _ H). unfold driver_aggregate.
  destruct (aggregate_reply db (name c) (pipeline c)); [|reflexivity].
  rewrite (load_collection_eq self c) by exact H. reflexivity.
Qed.

Lemma aggregate_log db self c w :
  heap w !! self = Some (OCollection c) ->
  driver_log (snd (MongoCollection.aggregate db self w))
  = driver_log w ++ [aggregate_call (name c) (pipeline c)].
Proof.
  intros H. rewrite (aggregate_eq _ _ _ _ H).
  by destruct (aggregate_reply db (name c) (pipeline c)).
Qed.

Lemma legacy_get_eq db self w :
  Legacy.MongoCollection.get db self w = MongoCollection.get db self w.
Proof. reflexivity. Qed.

(** A driver exception leaves [get] before the reset. *)
Lemma get_raise_keeps_pipeline db self c w e :
  heap w !! self = Some (OCollection c) ->
  aggregate_reply db (name c) (pipeline c) = Raise e ->
  fst (MongoCollection.get db self w) = Raise e /\
  pipeline_of (snd (MongoCollection.get db self w)) self = Some (pipeline c).
Proof.
  intros H He. unfold MongoCollection.get. rewrite (aggregate_eq _ _ _ _ H), He.
  split; [reflexivity|]. unfold pipeline_of. simpl. by rewrite H.
Qed.

Lemma where_eq self c args q w :
  heap w !! self = Some (OCollection c) ->
  parse (MongoCollection.where_args args) = Ok q ->
  MongoCollection.where_ self args w
  = (Ok (RHandle self),
     with_object w self
       (OCollection {| name := name c; pipeline := pipeline c ++ [match_stage q] |})).
Proof.
  intros H Hq. unfold MongoCollection.where_, mbind, lift.
  rewrite (load_collection_eq _ _ _ H), Hq, (pipeline_append_eq _ _ _ _ H).
  reflexivity.
Qed.

(** A [where] whose expression does not compile raises and appends nothing. *)
Lemma where_raise self c args e w :
  heap w !! self = Some (OCollection c) ->
  parse (MongoCollection.where_args args) = Raise e ->
  MongoCollection.where_ self args w = (Raise e, w).
Proof.
  intros H He. unfold MongoCollection.where_, mbind, lift.
  by rewrite (load_collection_eq _ _ _ H), He.
Qed.

Lemma wheres_eq self calls qs : forall c w,
  heap w !! self = Some (OCollection c) ->
  Forall2 (fun args q => parse (MongoCollection.where_args args) = Ok q) calls qs ->
  exists w',
    wheres self calls w = (Ok tt, w') /\
    heap w' !! self
      = Some (OCollection {| name := name c;
                             pipeline := pipeline c ++ List.map match_stage qs |}) /\
    driver_log w' = driver_log w.
Proof.
  intros c w H Hall. revert c w H.
  induction Hall as [|args q calls qs Hq _ IH]; intros c w H.
  - exists w. simpl. rewrite app_nil_r. destruct c; auto.
  - simpl. unfold mbind. rewrite (where_eq _ _ _ _ _ H Hq).
    set (c' := {| name := name c; pipeline := pipeline c ++ [match_stage q] |}).
    destruct (IH c' (with_object w self (OCollection c')))
      as (w' & Hrun & Hheap & Hlog).
    { unfold with_object. simpl. apply lookup_insert_eq. }
    exists w'. split; [exact Hrun|]. split; [|exact Hlog].
    rewrite Hheap. simpl. by rewrite <- app_assoc.
Qed.

Lemma legacy_wheres_eq self calls w :
  legacy_wheres self calls w = wheres self calls w.
Proof.
  revert w. induction calls as [|args calls IH]; intros w; [reflexivity|].
  simpl. unfold mbind.
  change (Legacy.MongoCollection.where_ self args w)
    with (MongoCollection.where_ self args w).
  destruct (MongoCollection.where_ self args w) as [[r|e] w']; [apply IH|reflexivity].
Qed.

(** C6, as stated, fails: when the driver's aggregation raises, [get]
    raises before the reset, the pipeline keeps its stage, and a second
    [get] right after runs with that stage, not with the empty pipeline. *)
Lemma get_keeps_pipeline_when_driver_raises :
  pipeline_of filtered_world 0 = Some [match_stage (VStr "x")] /\
  fst (MongoCollection.get failing_server 0 filtered_world)
    = Raise (Exception "OperationFailure") /\
  pipeline_of (snd (MongoCollection.get failing_server 0 filtered_world)) 0
    = Some [match_stage (VStr "x")] /\
  driver_log (snd (MongoCollection.get empty_server 0
                     (snd (MongoCollection.get failing_server 0 filtered_world))))
    = [aggregate_call "users" [match_stage (VStr "x")];
       aggregate_call "users" [match_stage (VStr "x")]].
Proof. repeat split; vm_compute; reflexivity. Qed.

(** C6, amended. Whatever the pipeline of a handle is, [get] (and
    [aggregate], and the older [get]) calls the driver's aggregation with
    exactly that pipeline.  When the driver answers, the pipeline is then
    empty, so that a second [get] right after calls the aggregation with the
    empty pipeline; when the driver raises, [get] raises the same exception
    and the pipeline is as it was.  [n] successive [where] calls, of either
    version of the module, with expressions that compile, append [n]
    [$match] stages ([n] stages in all on a fresh or just-executed handle),
    which is then the pipeline [get] runs. *)
Theorem get_runs_pipeline_then_resets (db : server) (self : loc)
    (c : collection_obj) (w : world) :
  heap w !! self = Some (OCollection c) ->
  (MongoCollection.aggregate db self w = MongoCollection.get db self w /\
   Legacy.MongoCollection.get db self w = MongoCollection.get db self w /\
   driver_log (snd (MongoCollection.get db self w))
     = driver_log w ++ [aggregate_call (name c) (pipeline c)]) /\
  (forall docs,
     aggregate_reply db (name c) (pipeline c) = Ok docs ->
     fst (MongoCollection.get db self w) = Ok (RDocs docs) /\
     pipeline_of (snd (MongoCollection.get db self w)) self = Some [] /\
     driver_log (snd (MongoCollection.get db self
                        (snd (MongoCollection.get db self w))))
       = driver_log w ++ [aggregate_call (name c) (pipeline c);
                          aggregate_call (name c) []] /\
     pipeline_of (snd (MongoCollection.get db self
                         (snd (MongoCollection.get db self w)))) self
       = Some []) /\
  (forall e,
     aggregate_reply db (name c) (pipeline c) = Raise e ->
     fst (MongoCollection.get db self w) = Raise e /\
     pipeline_of (snd (MongoCollection.get db self w)) self = Some (pipeline c)) /\
  (forall calls qs,
     Forall2 (fun args q => parse (MongoCollection.where_args args) = Ok q) calls qs ->
     exists w',
       wheres self calls w = (Ok tt, w') /\
       legacy_wheres self calls w = (Ok tt, w') /\
       pipeline_of w' self = Some (pipeline c ++ List.map match_stage qs) /\
       (pipeline c = [] ->
        pipeline_of w' self = Some (List.map match_stage qs) /\
        length (List.map match_stage qs) = length calls) /\
       driver_log (snd (MongoCollection.get db self w'))
         = driver_log w ++
           [aggregate_call (name c) (pipeline c ++ List.map match_stage qs)]).
Proof.
  intros H. split; [|split; [|split]].
  - split; [reflexivity|]. split; [reflexivity|].
    exact (aggregate_log db self c w H).
  - intros docs Hdocs.
    pose proof (aggregate_eq db self c w H) as E1. rewrite Hdocs in E1.
    unfold MongoCollection.get. rewrite E1. simpl.
    set (w1 := with_object (with_call w (aggregate_call (name c) (pipeline c))) self
                 (OCollection {| name := name c; pipeline := [] |})).
    assert (H1 : heap w1 !! self
                 = Some (OCollection {| name := name c; pipeline := [] |}))
      by apply lookup_insert_eq.
    split; [reflexivity|]. split; [apply pipeline_of_with_object|].
    split.
    + rewrite (aggregate_log db self _ w1 H1). simpl. by rewrite <- app_assoc.
    + rewrite (aggregate_eq db self _ w1 H1). simpl.
      destruct (aggregate_reply db (name c) []).
      * apply pipeline_of_with_object.
      * unfold pipeline_of. simpl. by rewrite lookup_insert_eq.
  - intros e He. by apply get_raise_keeps_pipeline.
  - intros calls qs Hall.
    destruct (wheres_eq self calls qs c w H Hall) as (w' & Hrun & Hheap & Hlog).
    exists w'. split; [exact Hrun|].
    split; [by rewrite legacy_wheres_eq|].
    assert (Hp : pipeline_of w' self = Some (pipeline c ++ List.map match_stage qs))
      by (unfold pipeline_of; by rewrite Hheap).
    split; [exact Hp|]. split.
    + intros Hnil. rewrite Hnil in Hp. split; [exact Hp|].
      rewrite length_map. symmetry. by apply Forall2_length in Hall.
    + unfold MongoCollection.get. rewrite (aggregate_log db self _ w' Hheap).
      simpl. by rewrite Hlog.
Qed.

Lemma get_runs_pipeline_then_resets_witness :
  (fst (MongoCollection.get empty_server 0 filtered_world) = Ok (RDocs []) /\
   pipeline_of (snd (MongoCollection.get empty_server 0 filtered_world)) 0
     = Some [] /\
   driver_log (snd (MongoCollection.get empty_server 0
                      (snd (MongoCollection.get empty_server 0 filtered_world))))
     = [aggregate_call "users" [match_stage (VStr "x")];
        aggregate_call "users" []]) /\
  exists w',
    legacy_wheres 0
      [[VStr "age"; VStr ">"; VInt 18]; [VList [VStr "n"; VStr "=="; VInt 1]]]
      sample_world = (Ok tt, w') /\
    pipeline_of w' 0
      = Some [match_stage (VDict [(VStr "age", VDict [(VStr "$gt", VInt 18)])]);
              match_stage (VDict [(VStr "n", VInt 1)])].
Proof.
  split.
  - destruct (proj1 (proj2 (get_runs_pipeline_then_resets empty_server 0
                              {| name := "users";
                                 pipeline := [match_stage (VStr "x")] |}
                              filtered_world eq_refl)) [] eq_refl)
      as (Hget & Hreset & Hlog & _).
    repeat split; assumption.
  - destruct (proj2 (proj2 (proj2 (get_runs_pipeline_then_resets empty_server 0
                              {| name := "users"; pipeline := [] |}
                              sample_world eq_refl)))
                [[VStr "age"; VStr ">"; VInt 18];
                 [VList [VStr "n"; VStr "=="; VInt 1]]]
                [VDict [(VStr "age", VDict [(VStr "$gt", VInt 18)])];
                 VDict [(VStr "n", VInt 1)]])
      as (w' & _ & Hlegacy & Hpipe & _).
    + repeat constructor.
    + exists w'. split; assumption.
Defined.

(** The builder methods of [src/mongo.py] return the handle they were
    called on. *)
Lemma builder_returns_self self c w :
  heap w !! self = Some (OCollection c) ->
  (forall args q, parse (MongoCollection.where_args args) = Ok q ->
     fst (MongoCollection.where_ self args w) = Ok (RHandle self)) /\
  (forall field order, hashable field = true ->
     fst (MongoCollection.order_by self field order w) = Ok (RHandle self)) /\
  (forall num, fst (MongoCollection.limit self num w) = Ok (RHandle self)).
Proof.
  intros H. repeat split.
  - intros args q Hq. by rewrite (where_eq _ _ _ _ _ H Hq).
  - intros nm order Hh. unfold MongoCollection.order_by, mbind, lift, dict1.
    by rewrite (load_collection_eq _ _ _ H), Hh, (pipeline_append_eq _ _ _ _ H).
  - intros num. unfold MongoCollection.limit, mbind.
    by rewrite (pipeline_append_eq _ _ _ _ H).
Qed.

(** In the older [mongo.py], [order_by] and [limit] append their stage and
    return [None], whatever the handle and the arguments. *)
Lemma legacy_builder_returns_none self c w :
  heap w !! self = Some (OCollection c) ->
  (forall field order, hashable field = true ->
     Legacy.MongoCollection.order_by self field order w
     = (Ok RNone,
        with_object w self
          (OCollection {| name := name c;
                          pipeline := pipeline c ++
                            [VDict [(VStr "$sort", VDict [(field, order)])]] |}))) /\
  (forall num,
     Legacy.MongoCollection.limit self num w
     = (Ok RNone,
        with_object w self
          (OCollection {| name := name c;
                          pipeline := pipeline c ++ [VDict [(VStr "$limit", num)]] |}))).
Proof.
  intros H. split.
  - intros nm order Hh. unfold Legacy.MongoCollection.order_by, mbind, lift, dict1.
    by rewrite (load_collection_eq _ _ _ H), Hh, (pipeline_append_eq _ _ _ _ H).
  - intros num. unfold Legacy.MongoCollection.limit, mbind.
    by rewrite (pipeline_append_eq _ _ _ _ H).
Qed.

(** C9. In the older [mongo.py], on a fresh handle, [where] returns the
    handle but [order_by("age")] and [limit(3)] return [None], so a call
    chained on their result has no handle to act on; the same calls in
    [src/mongo.py] return the handle. *)
Theorem legacy_order_by_limit_return_none :
  fst (Legacy.MongoCollection.where_ 0 [VStr "age"; VStr ">"; VInt 18] sample_world)
    = Ok (RHandle 0) /\
  fst (Legacy.MongoCollection.order_by 0 (VStr "age") (VInt 1) sample_world)
    = Ok RNone /\
  fst (Legacy.MongoCollection.limit 0 (VInt 3) sample_world) = Ok RNone /\
  fst (MongoCollection.order_by 0 (VStr "age") (VInt 1) sample_world)
    = Ok (RHandle 0) /\
  fst (MongoCollection.limit 0 (VInt 3) sample_world) = Ok (RHandle 0).
Proof. repeat split; vm_compute; reflexivity. Qed.

(** ** [MongoReference] *)

Lemma dict_pop_lookup d key : dict_lookup (dict_pop d key) key = None.
Proof.
  induction d as [|[k v] d IH]; [reflexivity|]. simpl.
  destruct (lit_eq k key) eqn:Hk; simpl; [exact IH|]. by rewrite Hk.
Qed.

Lemma dict_pop_lookup_ne d key key' :
  key' <> key -> dict_lookup (dict_pop d key) key' = dict_lookup d key'.
Proof.
  intros Hne. induction d as [|[k v] d IH]; [reflexivity|]. simpl.
  destruct (lit_eq k key) eqn:Hk; simpl.
  - destruct k; simpl in Hk; try discriminate.
    apply String.eqb_eq in Hk as ->. simpl.
    destruct (String.eqb_spec key key') as [->|_]; [contradiction|exact IH].
  - by rewrite IH.
Qed.

Lemma dict_pop_keys d key : ~ In (VStr key) (dict_keys (dict_pop d key)).
Proof.
  unfold dict_keys, dict_pop. rewrite in_map_iff. intros ([k v] & Hk & Hin).
  apply filter_In in Hin as [_ Hf]. simpl in *. subst k.
  simpl in Hf. by rewrite String.eqb_refl in Hf.
Qed.

Lemma clean_eq self data d w :
  heap w !! data = Some (ODict d) ->
  MongoReference._clean self data w
  = (Ok data, with_object w data (ODict (dict_pop d "_id"))).
Proof.
  intros H. unfold MongoReference._clean, mbind. by rewrite (pop_eq _ _ _ _ H).
Qed.

(** The three write methods: pop, then one driver call on the same dict. *)
Ltac write_method H :=
  unfold MongoReference.set, MongoReference.update, MongoReference.push, mbind;
  rewrite (clean_eq _ _ _ _ H);
  rewrite (load_dict_eq _ (dict_pop _ "_id")) by apply lookup_insert_eq;
  unfold driver_write, write_outcome, MongoReference._docId;
  destruct (write_reply _ _); reflexivity.

Lemma set_eq db self data d w :
  heap w !! data = Some (ODict d) ->
  let c := replace_one_call (collection self) (VDict [(VStr "_id", docId self)])
             (VDict (dict_pop d "_id")) true in
  MongoReference.set db self data w
  = (write_outcome db c, with_call (with_object w data (ODict (dict_pop d "_id"))) c).
Proof. intros H c. subst c. write_method H. Qed.

Lemma update_eq db self data d w :
  heap w !! data = Some (ODict d) ->
  let c := update_one_call (collection self) (VDict [(VStr "_id", docId self)])
             (VDict [(VStr "$set", VDict (dict_pop d "_id"))]) true in
  MongoReference.update db self data w
  = (write_outcome db c, with_call (with_object w data (ODict (dict_pop d "_id"))) c).
Proof. intros H c. subst c. write_method H. Qed.

Lemma push_eq db self data d w :
  heap w !! data = Some (ODict d) ->
  let c := update_one_call (collection self) (VDict [(VStr "_id", docId self)])
             (VDict [(VStr "$push", VDict (dict_pop d "_id"))]) true in
  MongoReference.push db self data w
  = (write_outcome db c, with_call (with_object w data (ODict (dict_pop d "_id"))) c).
Proof. intros H c. subst c. write_method H. Qed.

(** The older [mongo.py] pops inline; the three methods do the same. *)
Lemma legacy_reference_eq db self data w :
  Legacy.MongoReference.set db self data w = MongoReference.set db self data w /\
  Legacy.MongoReference.update db self data w = MongoReference.update db self data w /\
  Legacy.MongoReference.push db self data w = MongoReference.push db self data w.
Proof.
  unfold Legacy.MongoReference.set, Legacy.MongoReference.update,
    Legacy.MongoReference.push, MongoReference.set, MongoReference.update,
    MongoReference.push, MongoReference._clean, mbind, ret.
  repeat split; destruct (pop data "_id" w) as [[v|e] w']; reflexivity.
Qed.

(** C7. For every dict [data], [set], [update] and [push] make one driver
    write whose filter is [{"_id": self.docId}] and whose payload is [data]
    without its ["_id"] entry, the other entries kept: the payload has no
    ["_id"] key, whatever [data] carried there.  They return [None] when
    the driver accepts the write. *)
Theorem reference_writes_strip_key (db : server) (self : reference) (data : loc)
    (d : pydict) (w : world) :
  heap w !! data = Some (ODict d) ->
  let payload := dict_pop d "_id" in
  let target := VDict [(VStr "_id", docId self)] in
  let replace := replace_one_call (collection self) target (VDict payload) true in
  let update op :=
    update_one_call (collection self) target (VDict [(VStr op, VDict payload)]) true in
  dict_lookup payload "_id" = None /\
  ~ In (VStr "_id") (dict_keys payload) /\
  (forall key, key <> "_id" -> dict_lookup payload key = dict_lookup d key) /\
  driver_log (snd (MongoReference.set db self data w)) = driver_log w ++ [replace] /\
  fst (MongoReference.set db self data w) = write_outcome db replace /\
  driver_log (snd (MongoReference.update db self data w))
    = driver_log w ++ [update "$set"] /\
  fst (MongoReference.update db self data w) = write_outcome db (update "$set") /\
  driver_log (snd (MongoReference.push db self data w))
    = driver_log w ++ [update "$push"] /\
  fst (MongoReference.push db self data w) = write_outcome db (update "$push") /\
  Legacy.MongoReference.set db self data w = MongoReference.set db self data w /\
  Legacy.MongoReference.update db self data w = MongoReference.update db self data w /\
  Legacy.MongoReference.push db self data w = MongoReference.push db self data w.
Proof.
  intros H payload target replace update.
  split; [apply dict_pop_lookup|]. split; [apply dict_pop_keys|].
  split; [intros key Hne; by apply dict_pop_lookup_ne|].
  rewrite (set_eq db _ _ _ _ H), (update_eq db _ _ _ _ H), (push_eq db _ _ _ _ H).
  do 6 (split; [reflexivity|]).
  rewrite <- (set_eq db _ _ _ _ H), <- (update_eq db _ _ _ _ H),
    <- (push_eq db _ _ _ _ H).
  apply legacy_reference_eq.
Qed.

Lemma reference_writes_strip_key_witness :
  driver_log (snd (MongoReference.set empty_server sample_reference 1 sample_world))
    = [replace_one_call "users" (VDict [(VStr "_id", VStr "alice")])
         (VDict [(VStr "n", VInt 1)]) true] /\
  driver_log (snd (MongoReference.push empty_server sample_reference 1 sample_world))
    = [update_one_call "users" (VDict [(VStr "_id", VStr "alice")])
         (VDict [(VStr "$push", VDict [(VStr "n", VInt 1)])]) true].
Proof.
  destruct (reference_writes_strip_key empty_server sample_reference 1
              [(VStr "_id", VInt 9); (VStr "n", VInt 1)] sample_world eq_refl)
    as (_ & _ & _ & Hset & _ & _ & _ & Hpush & _).
  split; [exact Hset | exact Hpush].
Defined.

Lemma dict_pop_In d key k v :
  In (k, v) (dict_pop d key) <-> In (k, v) d /\ lit_eq k key = false.
Proof.
  unfold dict_pop. rewrite filter_In. simpl. by rewrite negb_true_iff.
Qed.

Lemma dict_pop_sublist d key : dict_pop d key `sublist_of` d.
Proof.
  induction d as [|[k v] d IH]; simpl; [constructor|].
  destruct (lit_eq k key); simpl; by constructor.
Qed.

(** C10. [set], [update] and [push] change the dict object they are handed:
    after the call, whether the driver accepted the write or raised, the
    object at [data] is the caller's dict without its ["_id"] entry, its
    other entries kept, with their values and in their order, and every
    other object is as before. *)
Theorem reference_writes_mutate_argument (db : server) (self : reference)
    (data : loc) (d : pydict) (w : world) :
  heap w !! data = Some (ODict d) ->
  let after := dict_pop d "_id" in
  dict_lookup after "_id" = None /\
  (forall key, key <> "_id" -> dict_lookup after key = dict_lookup d key) /\
  (forall k v, In (k, v) after <-> In (k, v) d /\ lit_eq k "_id" = false) /\
  after `sublist_of` d /\
  (forall w', w' = snd (MongoReference.set db self data w) \/
              w' = snd (MongoReference.update db self data w) \/
              w' = snd (MongoReference.push db self data w) \/
              w' = snd (Legacy.MongoReference.set db self data w) \/
              w' = snd (Legacy.MongoReference.update db self data w) \/
              w' = snd (Legacy.MongoReference.push db self data w) ->
     dict_at w' data = Some after /\
     forall l, l <> data -> heap w' !! l = heap w !! l).
Proof.
  intros H after. split; [apply dict_pop_lookup|].
  split; [intros key Hne; by apply dict_pop_lookup_ne|].
  split; [intros k v; apply dict_pop_In|].
  split; [apply dict_pop_sublist|].
  destruct (legacy_reference_eq db self data w) as (-> & -> & ->).
  rewrite (set_eq db _ _ _ _ H), (update_eq db _ _ _ _ H), (push_eq db _ _ _ _ H).
  intros w' Hw'.
  assert (Hheap : heap w' = <[data := ODict after]> (heap w))
    by (repeat destruct Hw' as [-> | Hw']; subst; reflexivity).
  split.
  - unfold dict_at. by rewrite Hheap, lookup_insert_eq.
  - intros l Hl. by rewrite Hheap, lookup_insert_ne.
Qed.

Lemma reference_writes_mutate_argument_witness :
  dict_at sample_world 1 = Some [(VStr "_id", VInt 9); (VStr "n", VInt 1)] /\
  dict_at (snd (MongoReference.update failing_server sample_reference 1 sample_world)) 1
    = Some [(VStr "n", VInt 1)].
Proof.
  split; [reflexivity|].
  destruct (reference_writes_mutate_argument failing_server sample_reference 1
              [(VStr "_id", VInt 9); (VStr "n", VInt 1)] sample_world eq_refl)
    as (_ & _ & _ & _ & Hafter).
  apply (Hafter (snd (MongoReference.update failing_server sample_reference 1
                        sample_world))).
  right. left. reflexivity.
Defined.

(** ** [parse] under the recursion limit *)

Lemma dispatch_dispatch_with args items :
  dispatch args items = dispatch_with parse parse_each args items.
Proof. reflexivity. Qed.

Lemma parse_within_S comp rest x :
  parse_within comp (S rest) x
  = match items_of x with
    | Some items =>
        dispatch_with
          (parse_within comp rest)
          (fun expr =>
             if Nat.ltb rest comp then Raise RecursionError
             else each (parse_within comp (rest - comp)) expr)
          x items
    | None => Ok x
    end.
Proof. destruct x; reflexivity. Qed.

















(** A chain of negations one deeper than the frames left ends in
    [RecursionError], whatever is inside. *)
Lemma parse_within_nots comp frames x :
  parse_within comp frames (nots frames x) = Raise RecursionError.
Proof.
  induction frames as [|rest IH]; [reflexivity|].
  simpl nots. rewrite parse_within_S. simpl. by rewrite IH.
Qed.





Example parse_within_deep_not :
  compiles (nots 1000 (VInt 1)) = true /\
  parse_within 0 1000 (nots 1000 (VInt 1)) = Raise RecursionError.
Proof. split; [reflexivity | apply parse_within_nots]. Qed.

(** * Further properties *)

(** ** [parse]: shape of the result *)

(** On a sequence that matches a case other than the last, the result does
    not depend on the subject itself, only on its items, and a returned
    result is a dict with one hashable key. *)
Lemma dispatch_matched x items :
  items_of x = Some items -> matches_rule x = true ->
  (forall y, dispatch y items = dispatch x items) /\
  (forall r, dispatch x items = Ok r ->
     exists k v, r = VDict [(k, v)] /\ hashable k = true).
Proof.
  unfold matches_rule, is_not_node, is_comparison_node, is_combinator_node.
  intros -> H.
  assert (Hnary : forall t expr, items = t :: expr ->
            bool_decide (is_Some (combinator t)) = true ->
            (forall y, nary y items = nary x items) /\
            (forall r, nary x items = Ok r ->
               exists k v, r = VDict [(k, v)] /\ hashable k = true)).
  { intros t expr -> Ht. apply bool_decide_eq_true in Ht as [tag Ht].
    unfold nary. rewrite Ht. split; [reflexivity|].
    intros r Hr. destruct (parse_each expr); [|discriminate].
    injection Hr as <-. by eexists _, _. }
  destruct items as [|a [|b [|c [|d items]]]]; simpl in H.
  - discriminate.
  - by apply (Hnary a []).
  - unfold dispatch. destruct (lit_eq a "not") eqn:Hnot.
    + split; [reflexivity|]. intros r Hr.
      destruct (parse b); [|discriminate]. injection Hr as <-. by eexists _, _.
    + by apply (Hnary a [b]).
  - unfold dispatch. destruct (comparison b) as [tag|] eqn:Hb.
    + split; [reflexivity|]. intros r Hr.
      destruct (parse c); [|discriminate]. simpl in Hr. unfold dict1 in Hr.
      destruct (hashable a) eqn:Ha; [|discriminate].
      injection Hr as <-. by eexists _, _.
    + apply (Hnary a [b; c]); [reflexivity|].
      rewrite bool_decide_eq_false_2 in H by (intros [? ?]; discriminate).
      exact H.
  - by apply (Hnary a (b :: c :: d :: items)).
Qed.

(** X1. What [parse] returns is a fixed point of [parse]: compiling an
    already compiled filter document, or a passed-through input, changes
    nothing. *)
Theorem parse_idempotent (x r : value) : parse x = Ok r -> parse r = Ok r.
Proof.
  intros Hr. destruct (matches_rule x) eqn:Hm.
  - destruct (items_of x) as [items|] eqn:Hx.
    + assert (Hd : dispatch x items = Ok r)
        by (destruct x; try discriminate; injection Hx as ->; exact Hr).
      destruct (proj2 (dispatch_matched x items Hx Hm) r Hd) as (k & v & -> & _).
      reflexivity.
    + rewrite (parse_scalar x Hx) in Hr. injection Hr as <-. by apply parse_scalar.
  - rewrite (parse_unmatched x Hm) in Hr. injection Hr as <-.
    by apply parse_unmatched.
Qed.

Lemma parse_idempotent_witness :
  parse (VDict [(VStr "age", VDict [(VStr "$gte", VInt 18)])])
  = Ok (VDict [(VStr "age", VDict [(VStr "$gte", VInt 18)])]).
Proof.
  apply (parse_idempotent (VList [VStr "age"; VStr ">="; VInt 18])). reflexivity.
Defined.

(** X2. An input that matches a [not], operator or and/or/nor case compiles,
    when [parse] returns, to a dict with exactly one entry, whose key is
    hashable. *)
Theorem parse_matched_one_key (x r : value) :
  matches_rule x = true -> parse x = Ok r ->
  exists k v, r = VDict [(k, v)] /\ hashable k = true.
Proof.
  intros Hm Hr. destruct (items_of x) as [items|] eqn:Hx.
  - apply (proj2 (dispatch_matched x items Hx Hm)).
    destruct x; try discriminate; injection Hx as ->; exact Hr.
  - destruct x; discriminate.
Qed.

Lemma parse_matched_one_key_witness :
  exists k v,
    VDict [(VStr "$or", VList [VInt 1; VInt 2])] = VDict [(k, v)] /\
    hashable k = true.
Proof.
  apply (parse_matched_one_key (VTuple [VStr "or"; VInt 1; VInt 2])); reflexivity.
Defined.

(** X3. A list and a tuple with the same items compile alike whenever the
    items match a case other than the last. *)
Theorem parse_list_tuple_agree (items : list value) :
  matches_rule (VList items) = true ->
  parse (VTuple items) = parse (VList items).
Proof.
  intros Hm. rewrite parse_VList, parse_VTuple.
  apply (proj1 (dispatch_matched (VList items) items eq_refl Hm)).
Qed.

Lemma parse_list_tuple_agree_witness :
  parse (VTuple [VStr "age"; VStr "<"; VInt 5])
  = parse (VList [VStr "age"; VStr "<"; VInt 5]).
Proof. apply parse_list_tuple_agree. reflexivity. Defined.

(** ** [parse]: what it raises *)







(** ** [parse]: operands *)

Lemma parse_each_Forall2 expr rs :
  parse_each expr = Ok rs <-> Forall2 (fun e r => parse e = Ok r) expr rs.
Proof.
  revert rs. induction expr as [|e expr IH]; intros rs; simpl.
  - split.
    + intros [= <-]. constructor.
    + intros H. by inversion H.
  - split.
    + destruct (parse e) as [r|] eqn:He; simpl; [|discriminate].
      destruct (parse_each expr) as [rs'|] eqn:Hrs; simpl; [|discriminate].
      intros [= <-]. constructor; [exact He|]. by apply IH.
    + intros H. inversion H as [|? r ? rs' He Hrs]; subst.
      rewrite He. simpl. apply IH in Hrs. rewrite Hrs. reflexivity.
Qed.

(** X5. When [[c, *E]] compiles by the and/or/nor case, the document holds
    one compiled operand per item of [E], in the order of [E]; and the
    compilation raises the exception of the first operand that raises. *)
Theorem parse_combinator_operands (k : seqkind) (c tag : string) (E : list value) :
  In (c, tag) combinators ->
  comparison_reading E = false ->
  (forall r, parse (sequence k (VStr c :: E)) = Ok r <->
     exists rs, r = VDict [(VStr tag, VList rs)] /\
                Forall2 (fun e r' => parse e = Ok r') E rs) /\
  (forall before e after ex,
     E = before ++ e :: after ->
     Forall (fun e' => returns (parse e')) before ->
     parse e = Raise ex ->
     parse (sequence k (VStr c :: E)) = Raise ex).
Proof.
  intros Hin Hcmp. apply combinator_combinators in Hin as [Hc Hnot].
  rewrite parse_sequence, (dispatch_nary _ _ _ _ Hc Hnot Hcmp).
  unfold combinator_document. split.
  - intros r. split.
    + destruct (parse_each E) as [rs|] eqn:Hrs; simpl; [|discriminate].
      intros [= <-]. exists rs. split; [reflexivity|]. by apply parse_each_Forall2.
    + intros (rs & -> & Hall). apply parse_each_Forall2 in Hall.
      by rewrite Hall.
  - intros before e after ex -> Hbefore He. clear Hcmp.
    assert (Hraise : parse_each (before ++ e :: after) = Raise ex).
    { induction Hbefore as [|b before [rb Hb] _ IH]; simpl.
      - by rewrite He.
      - rewrite Hb. simpl. by rewrite IH. }
    by rewrite Hraise.
Qed.

Lemma parse_combinator_operands_witness :
  parse (VList [VStr "nor"; VInt 1; VList [VList []; VStr "=="; VInt 2]; VInt 3])
  = Raise (TypeError "unhashable type").
Proof.
  apply (proj2 (parse_combinator_operands AsList "nor" "$nor"
                  [VInt 1; VList [VList []; VStr "=="; VInt 2]; VInt 3]
                  (or_intror (or_intror (or_introl eq_refl))) eq_refl)
           [VInt 1] (VList [VList []; VStr "=="; VInt 2]) [VInt 3]).
  - reflexivity.
  - repeat constructor. by eexists.
  - reflexivity.
Defined.

(** X6. Negations nest and never cancel: [["not", ["not", e]]] compiles to
    [{"$not": {"$not": parse(e)}}], for a list or a tuple at either level. *)
Theorem parse_not_not_nests (k k' : seqkind) (e : value) :
  parse (sequence k [VStr "not"; sequence k' [VStr "not"; e]])
  = (r <- parse e ;; Ok (VDict [(VStr "$not", VDict [(VStr "$not", r)])])).
Proof.
  rewrite parse_sequence. unfold dispatch. simpl lit_eq. cbv iota.
  rewrite parse_sequence. unfold dispatch. simpl lit_eq. cbv iota.
  destruct (parse e); reflexivity.
Qed.

(** ** [_thread_change]: the loop *)

Lemma pulled_then done k :
  pulled (fst (then_ done k)) = pulled done ++ pulled (fst k).
Proof. unfold then_, pulled. simpl. apply omap_app. Qed.

Lemma calls_then done k :
  calls (fst (then_ done k)) = calls done ++ calls (fst k).
Proof. unfold then_, calls. simpl. apply omap_app. Qed.

(** X7. Whatever the callback and the events: the events taken from the
    stream are an initial part of it, in order; the i-th call of the
    callback was made for the i-th event taken, with the raw event (one
    parameter) or its normalized triple (three parameters); at most the last
    event taken was not delivered (none is skipped); and when the function
    returns, every event of the stream was delivered, in order. *)
Theorem thread_change_trace (change_stream : list pydict) (on_snapshot : callback) :
  let run := _thread_change change_stream on_snapshot in
  pulled (fst run) `prefix_of` change_stream /\
  length (pulled (fst run)) <= S (length (calls (fst run))) /\
  Forall2 (delivered on_snapshot)
          (take (length (calls (fst run))) (pulled (fst run)))
          (calls (fst run)) /\
  (snd run = Returned ->
   pulled (fst run) = change_stream /\
   Forall2 (delivered on_snapshot) change_stream (calls (fst run))).
Proof.
  induction change_stream as [|change rest (IHp & IHs & IHd & IHr)]; simpl.
  - repeat split; try constructor; try lia; apply prefix_nil.
  - assert (Hstop0 : forall e,
              pulled (fst ([Pull change], Raised e)) `prefix_of` change :: rest /\
              length (pulled (fst ([Pull change], Raised e)))
                <= S (length (calls (fst ([Pull change], Raised e)))) /\
              Forall2 (delivered on_snapshot)
                (take (length (calls (fst ([Pull change], Raised e))))
                      (pulled (fst ([Pull change], Raised e))))
                (calls (fst ([Pull change], Raised e))) /\
              (snd ([Pull change], Raised e) = Returned ->
               pulled (fst ([Pull change], Raised e)) = change :: rest /\
               Forall2 (delivered on_snapshot) (change :: rest)
                       (calls (fst ([Pull change], Raised e))))).
    { intros e. simpl. split; [apply prefix_cons, prefix_nil|].
      split; [lia|]. split; [constructor | discriminate]. }
    assert (Hstop1 : forall args e,
              delivered on_snapshot change args ->
              pulled (fst ([Pull change; Call args], Raised e))
                `prefix_of` change :: rest /\
              length (pulled (fst ([Pull change; Call args], Raised e)))
                <= S (length (calls (fst ([Pull change; Call args], Raised e)))) /\
              Forall2 (delivered on_snapshot)
                (take (length (calls (fst ([Pull change; Call args], Raised e))))
                      (pulled (fst ([Pull change; Call args], Raised e))))
                (calls (fst ([Pull change; Call args], Raised e))) /\
              (snd ([Pull change; Call args], Raised e) = Returned ->
               pulled (fst ([Pull change; Call args], Raised e)) = change :: rest /\
               Forall2 (delivered on_snapshot) (change :: rest)
                       (calls (fst ([Pull change; Call args], Raised e))))).
    { intros args e Hd. simpl. split; [apply prefix_cons, prefix_nil|].
      split; [lia|]. split; [|discriminate].
      constructor; [exact Hd | constructor]. }
    assert (Hgo : forall args,
              delivered on_snapshot change args ->
              let run := then_ [Pull change; Call args]
                               (_thread_change rest on_snapshot) in
              pulled (fst run) `prefix_of` change :: rest /\
              length (pulled (fst run)) <= S (length (calls (fst run))) /\
              Forall2 (delivered on_snapshot)
                (take (length (calls (fst run))) (pulled (fst run)))
                (calls (fst run)) /\
              (snd run = Returned ->
               pulled (fst run) = change :: rest /\
               Forall2 (delivered on_snapshot) (change :: rest) (calls (fst run)))).
    { intros args Hd run. subst run. rewrite pulled_then, calls_then. simpl.
      split; [by apply prefix_cons|]. split; [lia|].
      split; [by constructor|].
      intros Hret. destruct (IHr Hret) as [Hpull Hall].
      split; [by rewrite Hpull | by constructor]. }
    destruct (co_argcount on_snapshot) as [|[|[|[|n]]]] eqn:Hargs.
    + apply Hstop0.
    + assert (Hd : delivered on_snapshot change [VDict change])
        by (left; by split).
      destruct (call on_snapshot [VDict change]);
        [by apply Hstop1 | by apply Hgo].
    + apply Hstop0.
    + destruct (normalize change) as [[[fd ch] rt]|e] eqn:Hn; [|apply Hstop0].
      assert (Hd : delivered on_snapshot change [fd; ch; rt])
        by (right; split; [exact Hargs | by eexists _, _, _]).
      destruct (call on_snapshot [fd; ch; rt]);
        [by apply Hstop1 | by apply Hgo].
    + apply Hstop0.
Qed.

(** X8. [normalize] returns exactly when the event has the keys
    [documentKey], [operationType] and [ns]; otherwise it raises the
    [KeyError] of the first of the three, in that order, that is missing.
    [fullDocument] and [clusterTime] may be absent. *)
Theorem normalize_key_errors (change : pydict) :
  (returns (normalize change) <->
   is_Some (dict_lookup change "documentKey") /\
   is_Some (dict_lookup change "operationType") /\
   is_Some (dict_lookup change "ns")) /\
  (forall e, normalize change = Raise e ->
     (e = KeyError "documentKey" /\ dict_lookup change "documentKey" = None) \/
     (e = KeyError "operationType" /\
      is_Some (dict_lookup change "documentKey") /\
      dict_lookup change "operationType" = None) \/
     (e = KeyError "ns" /\
      is_Some (dict_lookup change "documentKey") /\
      is_Some (dict_lookup change "operationType") /\
      dict_lookup change "ns" = None)).
Proof.
  unfold normalize, dict_getitem, returns.
  destruct (dict_lookup change "documentKey") as [dk|];
    destruct (dict_lookup change "operationType") as [ot|];
    destruct (dict_lookup change "ns") as [n|]; simpl.
  all: split;
    [ split;
      [ intros [a Ha]; try discriminate; repeat split; by eexists
      | intros (H1 & H2 & H3);
        try (by destruct H1); try (by destruct H2); try (by destruct H3);
        by eexists ]
    | intros e He; try discriminate; injection He as <-; eauto 10 ].
Qed.

Example normalize_missing_document_key :
  normalize [(VStr "operationType", VStr "drop"); (VStr "ns", VDict [])]
  = Raise (KeyError "documentKey").
Proof. reflexivity. Qed.

Lemma thread_change_raw_witness :
  snd (_thread_change [update_event; []] (callback_of 1)) = Returned /\
  pulled (fst (_thread_change [update_event; []] (callback_of 1)))
    = [update_event; []] /\
  calls (fst (_thread_change [update_event; []] (callback_of 1)))
    = [[VDict update_event]; [VDict []]].
Proof.
  apply (thread_change_raw (callback_of 1) [update_event; []]); reflexivity.
Defined.

(** X10. When a one-parameter callback raises on an event, the loop ends
    with that exception: the events before it were each delivered, the
    event itself was delivered, and nothing after it is taken from the
    stream. *)
Theorem thread_change_callback_raises (on_snapshot : callback)
    (before : list pydict) (change : pydict) (after : list pydict) (e : exn) :
  co_argcount on_snapshot = 1 ->
  Forall (fun c => call on_snapshot [VDict c] = None) before ->
  call on_snapshot [VDict change] = Some e ->
  snd (_thread_change (before ++ change :: after) on_snapshot) = Raised e /\
  pulled (fst (_thread_change (before ++ change :: after) on_snapshot))
    = before ++ [change] /\
  calls (fst (_thread_change (before ++ change :: after) on_snapshot))
    = List.map (fun c => [VDict c]) (before ++ [change]).
Proof.
  intros Hargs Hbefore He.
  induction Hbefore as [|c before Hc _ (IH1 & IH2 & IH3)]; simpl.
  - rewrite Hargs, He. repeat split.
  - rewrite Hargs, Hc. rewrite pulled_then, calls_then. simpl.
    rewrite IH1, IH2, IH3. repeat split.
Qed.

Lemma thread_change_callback_raises_witness :
  snd (_thread_change [[]; update_event; []] fussy_callback)
  = Raised (Exception "boom").
Proof.
  refine (proj1 (thread_change_callback_raises fussy_callback [[]] update_event
                   [[]] (Exception "boom") eq_refl _ eq_refl)).
  repeat constructor.
Defined.

(** The part of a three-parameter run over events that all normalize. *)
Lemma thread_change_normalized_prefix on_snapshot before rest :
  co_argcount on_snapshot = 3 ->
  (forall args, call on_snapshot args = None) ->
  Forall (fun c => returns (normalize c)) before ->
  exists done,
    _thread_change (before ++ rest) on_snapshot
      = then_ done (_thread_change rest on_snapshot) /\
    pulled done = before /\
    Forall2 (fun c args => exists fullDocument changes read_time,
               normalize c = Ok (fullDocument, changes, read_time) /\
               args = [fullDocument; changes; read_time])
            before (calls done).
Proof.
  intros Hargs Hcall Hbefore.
  induction Hbefore as [|c before [[[fd ch] rt] Hn] _ (done & Hrun & Hp & Hc)].
  - exists []. simpl. split; [|split; [reflexivity | constructor]].
    unfold then_. simpl. by destruct (_thread_change rest on_snapshot).
  - exists ([Pull c; Call [fd; ch; rt]] ++ done). simpl.
    rewrite Hargs, Hn, Hcall, Hrun. unfold then_. simpl.
    split; [reflexivity|]. split; [by rewrite Hp|].
    constructor; [|exact Hc]. by eexists _, _, _.
Qed.

(** X11. With a three-parameter callback that returns: if every event has
    the three required keys, each event is taken and the callback receives
    its normalized triple, in stream order, and the function returns; if an
    event lacks one, the loop ends there with the [KeyError], the events
    before it delivered, the malformed one taken but not delivered, and no
    later event taken. *)
Theorem thread_change_normalized (on_snapshot : callback)
    (before : list pydict) :
  co_argcount on_snapshot = 3 ->
  (forall args, call on_snapshot args = None) ->
  Forall (fun c => returns (normalize c)) before ->
  let delivered (tr : list action) :=
    Forall2 (fun c args => exists fullDocument changes read_time,
               normalize c = Ok (fullDocument, changes, read_time) /\
               args = [fullDocument; changes; read_time])
            before (calls tr) in
  (snd (_thread_change before on_snapshot) = Returned /\
   pulled (fst (_thread_change before on_snapshot)) = before /\
   delivered (fst (_thread_change before on_snapshot))) /\
  (forall change after e,
     normalize change = Raise e ->
     snd (_thread_change (before ++ change :: after) on_snapshot) = Raised e /\
     pulled (fst (_thread_change (before ++ change :: after) on_snapshot))
       = before ++ [change] /\
     delivered (fst (_thread_change (before ++ change :: after) on_snapshot))).
Proof.
  intros Hargs Hcall Hbefore delivered. subst delivered. split.
  - destruct (thread_change_normalized_prefix on_snapshot before [] Hargs Hcall
                Hbefore) as (done & Hrun & Hp & Hc).
    rewrite app_nil_r in Hrun. rewrite Hrun. unfold then_. simpl.
    rewrite !app_nil_r. by rewrite Hp.
  - intros change after e He.
    destruct (thread_change_normalized_prefix on_snapshot before (change :: after)
                Hargs Hcall Hbefore) as (done & Hrun & Hp & Hc).
    rewrite Hrun. rewrite pulled_then, calls_then. simpl.
    rewrite Hargs, He. simpl. rewrite Hp, app_nil_r. by repeat split.
Qed.

Lemma thread_change_normalized_witness :
  snd (_thread_change [update_event; [(VStr "operationType", VStr "drop")]]
         (callback_of 3))
  = Raised (KeyError "documentKey").
Proof.
  refine (proj1 (proj2 (thread_change_normalized (callback_of 3) [update_event]
                          eq_refl (fun _ => eq_refl) _)
                   [(VStr "operationType", VStr "drop")] [] _ eq_refl)).
  repeat constructor. by eexists.
Defined.

(** ** [MongoCollection]: the builder *)

Ltac builder_cases self w :=
  unfold MongoCollection.where_, MongoCollection.order_by, MongoCollection.limit,
    pipeline_append, mbind, lift, load_collection, store, ret, dict1;
  destruct (heap w !! self) as [[d|c]|] eqn:Hself; simpl;
  repeat match goal with
         | |- context [parse ?a] => destruct (parse a); simpl
         | |- context [hashable ?a] => destruct (hashable a); simpl
         end;
  rewrite ?Hself; simpl;
  repeat split; try reflexivity; try discriminate;
  intros l Hl; by rewrite lookup_insert_ne.

(** X12. [where], [order_by] and [limit] never call the driver and never
    touch another object (another handle's pipeline, a caller's dict); and
    when one of them raises, nothing was appended: the state is as before
    the call. *)
Theorem builder_frame (self : loc) (w : world) :
  let framed (run : result pyret * world) :=
    driver_log (snd run) = driver_log w /\
    (forall l, l <> self -> heap (snd run) !! l = heap w !! l) /\
    (forall e, fst run = Raise e -> snd run = w) in
  (forall args, framed (MongoCollection.where_ self args w)) /\
  (forall field order, framed (MongoCollection.order_by self field order w)) /\
  (forall num, framed (MongoCollection.limit self num w)).
Proof.
  intros framed. subst framed. simpl. split; [|split].
  - intros args. builder_cases self w.
  - intros field order. builder_cases self w.
  - intros num. builder_cases self w.
Qed.

Lemma order_by_eq self c field order w :
  heap w !! self = Some (OCollection c) ->
  hashable field = true ->
  MongoCollection.order_by self field order w
  = (Ok (RHandle self),
     with_object w self
       (OCollection {| name := name c;
                       pipeline := pipeline c ++
                         [VDict [(VStr "$sort", VDict [(field, order)])]] |})).
Proof.
  intros H Hh. unfold MongoCollection.order_by, mbind, lift, dict1.
  by rewrite (load_collection_eq _ _ _ H), Hh, (pipeline_append_eq _ _ _ _ H).
Qed.

Lemma limit_eq self c num w :
  heap w !! self = Some (OCollection c) ->
  MongoCollection.limit self num w
  = (Ok (RHandle self),
     with_object w self
       (OCollection {| name := name c;
                       pipeline := pipeline c ++ [VDict [(VStr "$limit", num)]] |})).
Proof.
  intros H. unfold MongoCollection.limit, mbind.
  by rewrite (pipeline_append_eq _ _ _ _ H).
Qed.

Lemma heap_with_object w l o : heap (with_object w l o) !! l = Some o.
Proof. apply lookup_insert_eq. Qed.

(** X13. The chain [c.where(e).order_by(field, order).limit(num).get()] of
    [src/mongo.py] makes one driver call, the aggregation of the handle's
    earlier stages followed by the [$match], [$sort] and [$limit] stages in
    call order, returns its documents and leaves the pipeline empty. *)
Theorem query_runs_stages_in_order (db : server) (self : loc) (c : collection_obj)
    (w : world) (args : list value) (q field order num : value)
    (docs : list value) :
  heap w !! self = Some (OCollection c) ->
  parse (MongoCollection.where_args args) = Ok q ->
  hashable field = true ->
  let stages :=
    pipeline c ++ [match_stage q;
                   VDict [(VStr "$sort", VDict [(field, order)])];
                   VDict [(VStr "$limit", num)]] in
  aggregate_reply db (name c) stages = Ok docs ->
  exists w',
    query db self args field order num w = (Ok (RDocs docs), w') /\
    driver_log w' = driver_log w ++ [aggregate_call (name c) stages] /\
    pipeline_of w' self = Some [].
Proof.
  intros H Hq Hh stages Hdocs. unfold query, mbind.
  rewrite (where_eq _ _ _ _ _ H Hq). simpl on_handle.
  erewrite order_by_eq; [|apply heap_with_object|exact Hh]. simpl on_handle.
  erewrite limit_eq; [|apply heap_with_object]. simpl on_handle.
  unfold MongoCollection.get. erewrite aggregate_eq; [|apply heap_with_object].
  simpl. rewrite <- !app_assoc. simpl. fold stages. rewrite Hdocs.
  eexists. split; [reflexivity|]. split; [reflexivity|].
  apply pipeline_of_with_object.
Qed.

Lemma query_runs_stages_in_order_witness :
  exists w',
    query empty_server 0 [VStr "age"; VStr ">"; VInt 18] (VStr "age") (VInt 1)
      (VInt 3) sample_world = (Ok (RDocs []), w') /\
    driver_log w'
      = [aggregate_call "users"
           [match_stage (VDict [(VStr "age", VDict [(VStr "$gt", VInt 18)])]);
            VDict [(VStr "$sort", VDict [(VStr "age", VInt 1)])];
            VDict [(VStr "$limit", VInt 3)]]] /\
    pipeline_of w' 0 = Some [].
Proof.
  apply (query_runs_stages_in_order empty_server 0
           {| name := "users"; pipeline := [] |} sample_world
           [VStr "age"; VStr ">"; VInt 18]
           (VDict [(VStr "age", VDict [(VStr "$gt", VInt 18)])])
           (VStr "age") (VInt 1) (VInt 3) []); reflexivity.
Defined.

(** X14. With the methods of the older [mongo.py] the same chain stops at
    [.limit]: [order_by] returned [None], so the chain raises
    [AttributeError] with no driver call made, and the [$match] and [$sort]
    stages stay in the handle's pipeline. *)
Theorem legacy_query_breaks (db : server) (self : loc) (c : collection_obj)
    (w : world) (args : list value) (q field order num : value) :
  heap w !! self = Some (OCollection c) ->
  parse (MongoCollection.where_args args) = Ok q ->
  hashable field = true ->
  exists w',
    legacy_query db self args field order num w
      = (Raise (AttributeError "NoneType"), w') /\
    driver_log w' = driver_log w /\
    pipeline_of w' self
      = Some (pipeline c ++ [match_stage q;
                             VDict [(VStr "$sort", VDict [(field, order)])]]).
Proof.
  intros H Hq Hh. unfold legacy_query, mbind.
  change (Legacy.MongoCollection.where_ self args w)
    with (MongoCollection.where_ self args w).
  rewrite (where_eq _ _ _ _ _ H Hq). simpl on_handle.
  set (c1 := {| name := name c; pipeline := pipeline c ++ [match_stage q] |}).
  destruct (legacy_builder_returns_none self c1
              (with_object w self (OCollection c1))
              (heap_with_object w self (OCollection c1))) as [Horder _].
  rewrite (Horder field order Hh). simpl.
  eexists. split; [reflexivity|]. split; [reflexivity|].
  rewrite pipeline_of_with_object. simpl. by rewrite <- app_assoc.
Qed.

Lemma legacy_query_breaks_witness :
  exists w',
    legacy_query empty_server 0 [VStr "age"; VStr ">"; VInt 18] (VStr "age")
      (VInt 1) (VInt 3) sample_world = (Raise (AttributeError "NoneType"), w') /\
    driver_log w' = [] /\
    pipeline_of w' 0
      = Some [match_stage (VDict [(VStr "age", VDict [(VStr "$gt", VInt 18)])]);
              VDict [(VStr "$sort", VDict [(VStr "age", VInt 1)])]].
Proof.
  apply (legacy_query_breaks empty_server 0 {| name := "users"; pipeline := [] |}
           sample_world [VStr "age"; VStr ">"; VInt 18]
           (VDict [(VStr "age", VDict [(VStr "$gt", VInt 18)])])
           (VStr "age") (VInt 1) (VInt 3)); reflexivity.
Defined.

(** X15. [where] called with the items of a comparison, negation or
    and/or/nor expression as separate arguments does what it does when
    called with the one list of them. *)
Theorem where_positional (self : loc) (items : list value) (w : world) :
  matches_rule (VList items) = true ->
  length items <> 1 ->
  MongoCollection.where_ self items w = MongoCollection.where_ self [VList items] w.
Proof.
  intros Hm Hlen.
  assert (Hargs : MongoCollection.where_args items = VTuple items)
    by (destruct items as [|a [|b items]]; try reflexivity; by destruct Hlen).
  unfold MongoCollection.where_. rewrite Hargs. simpl MongoCollection.where_args.
  rewrite parse_VTuple, parse_VList.
  by rewrite (proj1 (dispatch_matched (VList items) items eq_refl Hm) (VTuple items)).
Qed.

Lemma where_positional_witness :
  MongoCollection.where_ 0 [VStr "age"; VStr ">"; VInt 18] sample_world
  = MongoCollection.where_ 0 [VList [VStr "age"; VStr ">"; VInt 18]] sample_world.
Proof.
  apply where_positional; [reflexivity | simpl; lia].
Defined.

(** X16. When the driver's aggregation raises, [get] raises the same
    exception before the reset, so the pipeline stays: the next [get], on
    any server, sends the same stages again. *)
Theorem get_raise_resends_pipeline (db db' : server) (self : loc)
    (c : collection_obj) (w : world) (e : exn) :
  heap w !! self = Some (OCollection c) ->
  aggregate_reply db (name c) (pipeline c) = Raise e ->
  fst (MongoCollection.get db self w) = Raise e /\
  pipeline_of (snd (MongoCollection.get db self w)) self = Some (pipeline c) /\
  driver_log (snd (MongoCollection.get db' self (snd (MongoCollection.get db self w))))
    = driver_log w ++ [aggregate_call (name c) (pipeline c);
                       aggregate_call (name c) (pipeline c)].
Proof.
  intros H He. unfold MongoCollection.get.
  rewrite (aggregate_eq db _ _ _ H), He. simpl.
  split; [reflexivity|]. split; [unfold pipeline_of; simpl; by rewrite H|].
  rewrite (aggregate_log db' self c) by exact H.
  simpl. by rewrite <- app_assoc.
Qed.

Lemma get_raise_resends_pipeline_witness :
  fst (MongoCollection.get failing_server 0 sample_world)
  = Raise (Exception "OperationFailure").
Proof.
  apply (get_raise_resends_pipeline failing_server empty_server 0
           {| name := "users"; pipeline := [] |} sample_world); reflexivity.
Defined.

(** X17. [to_dict] returns [{}] when the aggregation yields no document and
    raises as soon as it yields one: [{document.pop("_id", None), document}]
    is a set display and [document], a dict, is unhashable ([TypeError]); a
    first item that is a list fails in [pop], which takes one argument on a
    list ([TypeError]), and one of another type has no [pop]
    ([AttributeError]).  In every case the aggregation has run and the
    pipeline is reset. *)
Theorem to_dict_raises_on_documents
    (dict_update : pydict -> list value -> result pydict) (db : server)
    (self : loc) (c : collection_obj) (w : world) (docs : list value) :
  heap w !! self = Some (OCollection c) ->
  aggregate_reply db (name c) (pipeline c) = Ok docs ->
  fst (to_dict dict_update db self w)
    = match docs with
      | [] => Ok (VDict [])
      | VDict _ :: _ => Raise (TypeError "unhashable type")
      | VList _ :: _ => Raise (TypeError "pop expected at most 1 argument, got 2")
      | _ :: _ => Raise (AttributeError "pop")
      end /\
  driver_log (snd (to_dict dict_update db self w))
    = driver_log w ++ [aggregate_call (name c) (pipeline c)] /\
  pipeline_of (snd (to_dict dict_update db self w)) self = Some [].
Proof.
  intros H Hdocs. unfold to_dict, mbind.
  rewrite (aggregate_eq db _ _ _ H), Hdocs. unfold lift, ret.
  assert (Hloop : to_dict_loop dict_update [] docs
                  = match docs with
                    | [] => Ok []
                    | VDict _ :: _ => Raise (TypeError "unhashable type")
                    | VList _ :: _ =>
                        Raise (TypeError "pop expected at most 1 argument, got 2")
                    | _ :: _ => Raise (AttributeError "pop")
                    end).
  { destruct docs as [|[| | | | | |d] docs]; try reflexivity.
    simpl. unfold set_display. simpl.
    by rewrite andb_false_r. }
  rewrite Hloop.
  destruct docs as [|[| | | | | |d] docs]; simpl;
    (split; [reflexivity|]; split; [reflexivity|]; apply pipeline_of_with_object).
Qed.

Lemma to_dict_raises_on_documents_witness :
  fst (to_dict (fun data _ => Ok data)
         {| aggregate_reply := fun _ _ => Ok [VDict [(VStr "_id", VInt 1)]];
            write_reply := fun _ => None |}
         0 sample_world)
  = Raise (TypeError "unhashable type").
Proof.
  apply (to_dict_raises_on_documents (fun data _ => Ok data)
           {| aggregate_reply := fun _ _ => Ok [VDict [(VStr "_id", VInt 1)]];
              write_reply := fun _ => None |}
           0 {| name := "users"; pipeline := [] |} sample_world
           [VDict [(VStr "_id", VInt 1)]]); reflexivity.
Defined.

(** X18. Each [collection(name)] call makes a new handle with an empty
    pipeline and changes no existing object; two handles made for the same
    collection are different objects, and a [where] on one leaves the
    pipeline of the other empty. *)
Theorem collection_handles_independent (nm : string) (w : world)
    (args : list value) (q : value) :
  parse (MongoCollection.where_args args) = Ok q ->
  exists h1 h2 w1 w2,
    database_collection nm w = (Ok (RHandle h1), w1) /\
    database_collection nm w1 = (Ok (RHandle h2), w2) /\
    heap w !! h1 = None /\
    h1 <> h2 /\
    (forall l, l <> h1 -> l <> h2 -> heap w2 !! l = heap w !! l) /\
    pipeline_of w2 h1 = Some [] /\
    pipeline_of w2 h2 = Some [] /\
    pipeline_of (snd (MongoCollection.where_ h1 args w2)) h1 = Some [match_stage q] /\
    pipeline_of (snd (MongoCollection.where_ h1 args w2)) h2 = Some [].
Proof.
  intros Hq.
  set (h1 := fresh (dom (heap w))).
  set (c0 := {| name := nm; pipeline := [] |}).
  set (w1 := with_object w h1 (OCollection c0)).
  set (h2 := fresh (dom (heap w1))).
  set (w2 := with_object w1 h2 (OCollection c0)).
  assert (Hf1 : heap w !! h1 = None)
    by (apply not_elem_of_dom, is_fresh).
  assert (Hf2 : heap w1 !! h2 = None)
    by (apply not_elem_of_dom, is_fresh).
  assert (Hne : h1 <> h2).
  { intros Heq. rewrite <- Heq in Hf2. unfold w1 in Hf2.
    rewrite heap_with_object in Hf2. discriminate. }
  assert (H1 : heap w2 !! h1 = Some (OCollection c0)).
  { unfold w2, with_object. simpl. rewrite lookup_insert_ne by done.
    apply lookup_insert_eq. }
  exists h1, h2, w1, w2.
  split; [reflexivity|]. split; [reflexivity|]. split; [exact Hf1|].
  split; [exact Hne|]. split.
  { intros l Hl1 Hl2. unfold w2, w1, with_object. simpl.
    by rewrite !lookup_insert_ne. }
  split; [unfold pipeline_of; by rewrite H1|].
  split; [apply pipeline_of_with_object|].
  rewrite (where_eq _ _ _ _ _ H1 Hq). simpl.
  split; [apply pipeline_of_with_object|].
  unfold pipeline_of, with_object. simpl.
  rewrite lookup_insert_ne by done. by rewrite lookup_insert_eq.
Qed.

Lemma collection_handles_independent_witness :
  exists h1 h2 w1 w2,
    database_collection "users" sample_world = (Ok (RHandle h1), w1) /\
    database_collection "users" w1 = (Ok (RHandle h2), w2) /\
    h1 <> h2 /\
    pipeline_of (snd (MongoCollection.where_ h1 [VStr "x"] w2)) h1
      = Some [match_stage (VStr "x")] /\
    pipeline_of (snd (MongoCollection.where_ h1 [VStr "x"] w2)) h2 = Some [].
Proof.
  destruct (collection_handles_independent "users" sample_world [VStr "x"]
              (VStr "x") eq_refl)
    as (h1 & h2 & w1 & w2 & E1 & E2 & _ & Hne & _ & _ & _ & Hp1 & Hp2).
  exists h1, h2, w1, w2. repeat split; assumption.
Defined.

(** ** [MongoReference]: the payload *)

Lemma dict_pop_absent d key : dict_lookup d key = None -> dict_pop d key = d.
Proof.
  induction d as [|[k v] d IH]; [reflexivity|]. simpl.
  destruct (lit_eq k key); [discriminate|]. simpl. intros H. by rewrite IH.
Qed.

Lemma reference_write_without_key_aux db self data d w :
  heap w !! data = Some (ODict d) ->
  dict_lookup d "_id" = None ->
  (heap (snd (MongoReference.set db self data w)) = heap w /\
   driver_log (snd (MongoReference.set db self data w))
     = driver_log w ++
       [replace_one_call (collection self) (VDict [(VStr "_id", docId self)])
          (VDict d) true]) /\
  (heap (snd (MongoReference.update db self data w)) = heap w /\
   driver_log (snd (MongoReference.update db self data w))
     = driver_log w ++
       [update_one_call (collection self) (VDict [(VStr "_id", docId self)])
          (VDict [(VStr "$set", VDict d)]) true]) /\
  (heap (snd (MongoReference.push db self data w)) = heap w /\
   driver_log (snd (MongoReference.push db self data w))
     = driver_log w ++
       [update_one_call (collection self) (VDict [(VStr "_id", docId self)])
          (VDict [(VStr "$push", VDict d)]) true]).
Proof.
  intros H Hno.
  rewrite (set_eq db _ _ _ _ H), (update_eq db _ _ _ _ H), (push_eq db _ _ _ _ H).
  rewrite (dict_pop_absent d "_id" Hno). simpl.
  rewrite (insert_id _ _ _ H). repeat split.
Qed.

(** X19. A dict without an ["_id"] entry is written as it is and is left as
    it was: after [set], [update] or [push] every object is unchanged, and
    the driver received all the entries of the dict, in their order. *)
Theorem reference_write_without_key (db : server) (self : reference)
    (data : loc) (d : pydict) (w : world) :
  heap w !! data = Some (ODict d) ->
  dict_lookup d "_id" = None ->
  let target := VDict [(VStr "_id", docId self)] in
  (heap (snd (MongoReference.set db self data w)) = heap w /\
   driver_log (snd (MongoReference.set db self data w))
     = driver_log w ++ [replace_one_call (collection self) target (VDict d) true]) /\
  (heap (snd (MongoReference.update db self data w)) = heap w /\
   driver_log (snd (MongoReference.update db self data w))
     = driver_log w ++
       [update_one_call (collection self) target
          (VDict [(VStr "$set", VDict d)]) true]) /\
  (heap (snd (MongoReference.push db self data w)) = heap w /\
   driver_log (snd (MongoReference.push db self data w))
     = driver_log w ++
       [update_one_call (collection self) target
          (VDict [(VStr "$push", VDict d)]) true]).
Proof.
  intros H Hno target. by apply reference_write_without_key_aux.
Qed.

Lemma reference_write_without_key_witness :
  heap (snd (MongoReference.set empty_server sample_reference 1
               (with_object sample_world 1 (ODict [(VStr "n", VInt 1)]))))
  = heap (with_object sample_world 1 (ODict [(VStr "n", VInt 1)])).
Proof.
  apply (reference_write_without_key empty_server sample_reference 1
           [(VStr "n", VInt 1)]
           (with_object sample_world 1 (ODict [(VStr "n", VInt 1)])));
    reflexivity.
Defined.

(** X20. A dict that went through [set], [update] or [push] can be written
    again, through any reference: the second write changes no object and
    its payload is the payload of the first, the dict without ["_id"]. *)
Theorem reference_write_again (db db' : server) (self self' : reference)
    (data : loc) (d : pydict) (w w1 : world) :
  heap w !! data = Some (ODict d) ->
  w1 = snd (MongoReference.set db self data w) \/
  w1 = snd (MongoReference.update db self data w) \/
  w1 = snd (MongoReference.push db self data w) ->
  let payload := VDict (dict_pop d "_id") in
  let target := VDict [(VStr "_id", docId self')] in
  (heap (snd (MongoReference.set db' self' data w1)) = heap w1 /\
   driver_log (snd (MongoReference.set db' self' data w1))
     = driver_log w1 ++ [replace_one_call (collection self') target payload true]) /\
  (heap (snd (MongoReference.update db' self' data w1)) = heap w1 /\
   driver_log (snd (MongoReference.update db' self' data w1))
     = driver_log w1 ++
       [update_one_call (collection self') target
          (VDict [(VStr "$set", payload)]) true]) /\
  (heap (snd (MongoReference.push db' self' data w1)) = heap w1 /\
   driver_log (snd (MongoReference.push db' self' data w1))
     = driver_log w1 ++
       [update_one_call (collection self') target
          (VDict [(VStr "$push", payload)]) true]).
Proof.
  intros H Hw1 payload target.
  assert (H1 : heap w1 !! data = Some (ODict (dict_pop d "_id"))).
  { rewrite (set_eq db _ _ _ _ H), (update_eq db _ _ _ _ H),
      (push_eq db _ _ _ _ H) in Hw1.
    repeat destruct Hw1 as [-> | Hw1]; subst; apply lookup_insert_eq. }
  apply (reference_write_without_key_aux db' self' data _ w1 H1).
  apply dict_pop_lookup.
Qed.

Lemma reference_write_again_witness :
  driver_log (snd (MongoReference.update empty_server sample_reference 1
                     (snd (MongoReference.set empty_server sample_reference 1
                             sample_world))))
  = driver_log (snd (MongoReference.set empty_server sample_reference 1 sample_world))
    ++ [update_one_call "users" (VDict [(VStr "_id", VStr "alice")])
          (VDict [(VStr "$set", VDict [(VStr "n", VInt 1)])]) true].
Proof.
  refine (proj2 (proj1 (proj2
            (reference_write_again empty_server empty_server sample_reference
               sample_reference 1 [(VStr "_id", VInt 9); (VStr "n", VInt 1)]
               sample_world _ eq_refl (or_introl eq_refl))))).
Defined.

(** ** [MongoCollection.document] *)

Lemma truthy_false v :
  truthy v = false <->
  In v [VNone; VBool false; VInt 0; VStr ""; VList []; VTuple []; VDict []].
Proof.
  split.
  - destruct v as [|[]|z|s|[|x l]|[|x l]|[|x l]]; simpl; try discriminate; auto 10.
    + destruct z; simpl; try discriminate; auto 10.
    + destruct s; simpl; try discriminate; auto 10.
  - simpl. intros H. repeat destruct H as [<- | H]; try reflexivity.
    contradiction.
Qed.

(** X21. [document(docId)] refers to [docId] only when [docId] is truthy, and
    then calls the driver for nothing. For [None], [False], [0], [""], [[]],
    [()] and [{}] it inserts one empty document and refers to the inserted
    id instead, so that a write through the reference goes to that id. *)
Theorem document_falsy_id (new_id : value) (self : collection_obj) (docId : value) :
  (truthy docId = true ->
   document new_id self docId
   = ({| collection := name self; docId := docId |}, [])) /\
  (In docId [VNone; VBool false; VInt 0; VStr ""; VList []; VTuple []; VDict []] ->
   document new_id self docId
   = ({| collection := name self; docId := new_id |}, [VDict []]) /\
   forall db data d w,
     heap w !! data = Some (ODict d) ->
     driver_log (snd (MongoReference.set db (fst (document new_id self docId)) data w))
     = driver_log w ++
       [replace_one_call (name self) (VDict [(VStr "_id", new_id)])
          (VDict (dict_pop d "_id")) true]).
Proof.
  split.
  - intros Ht. unfold document. by rewrite Ht.
  - intros Hf%truthy_false.
    assert (E : document new_id self docId
                = ({| collection := name self; docId := new_id |}, [VDict []]))
      by (unfold document; by rewrite Hf).
    split; [exact E|]. intros db data d w H.
    rewrite E. simpl. by rewrite (set_eq db _ _ _ _ H).
Qed.

Lemma document_falsy_id_witness :
  document (VStr "generated") {| name := "users"; pipeline := [] |} (VInt 0)
  = ({| collection := "users"; docId := VStr "generated" |}, [VDict []]).
Proof.
  refine (proj1 (proj2 (document_falsy_id (VStr "generated")
                          {| name := "users"; pipeline := [] |} (VInt 0)) _)).
  simpl. do 2 right. left. reflexivity.
Defined.
